(** * Olive render backend: cache invalidation, scheduling and lookup

    A shallow embedding of [RenderBackend] (render/backend/renderbackend.cpp)
    and of [VideoRenderBackend] (videorenderbackend.cpp), followed by the
    properties of the render-and-cache pipeline that are checked against
    the code. *)

From Stdlib Require Import ZArith QArith Qcanon Qround Qabs Lqa.
From Stdlib Require Import List String DecimalString Bool Lia Sorted.
Import ListNotations.

(** ** The exact time type *)

(** Modelled from the spec: the [rational] class (rational.h is not part of
    the sources at hand).  The spec gives it as a numerator/denominator pair
    with a positive denominator and exact arithmetic; canonical rationals
    [Qc] are that type with Leibniz equality, so that [==] of the C++ class
    is [=] here.  The 64-bit width of the two components is not modelled. *)
Module Rational.

Definition rational : Type := Qc.

Definition of_int (n : Z) : rational := Q2Qc (inject_Z n).

(** [rational(numerator, denominator)] for a positive denominator. *)
Definition make (n : Z) (d : positive) : rational := Q2Qc (n # d).

Definition numerator (r : rational) : Z := Qnum (this r).
Definition denominator (r : rational) : Z := Zpos (Qden (this r)).

Definition ltb (a b : rational) : bool :=
  match (a ?= b)%Qc with Lt => true | _ => false end.
Definition leb (a b : rational) : bool :=
  match (a ?= b)%Qc with Gt => false | _ => true end.
Definition eqb (a b : rational) : bool :=
  match (a ?= b)%Qc with Eq => true | _ => false end.

(** Qt's [qMax(a, b)] is [(a < b) ? b : a], [qMin(a, b)] is
    [(a < b) ? a : b] and [qAbs(t)] is [t >= 0 ? t : -t]. *)
Definition qMax (a b : rational) : rational := if ltb a b then b else a.
Definition qMin (a b : rational) : rational := if ltb a b then a else b.
Definition qAbs (t : rational) : rational := if leb 0%Qc t then t else (- t)%Qc.

End Rational.
Import Rational.

(** Modelled from the spec: [TimeRange] (timerange.h is not part of the
    sources at hand) is a pair of times, read with [in()] and [out()]. *)
Record TimeRange : Type := mkTimeRange { range_in : rational; range_out : rational }.

(** ** The insertion scan of [VideoRenderBackend::InvalidateCache] *)

(** The distance of a new point [r] to the playhead, as the loop body
    computes it: a point behind the playhead weighs five times its
    distance. *)
Definition new_point_diff (last_time r : rational) : rational :=
  let diff := (r - last_time)%Qc in
  if ltb diff 0%Qc then (qAbs diff * of_int 5)%Qc else diff.

(** The inner [for (int i=0;i<cache_queue_.size();i++)] loop together with
    the [if (!added) append] after it.  Walking down the list is walking up
    the index [i]; both [break]s leave the rest of the queue as it is. *)
Fixpoint queue_scan (last_time diff r : rational) (queue : list TimeRange)
  : list TimeRange :=
  match queue with
  | [] => [mkTimeRange r r]
  | e :: rest =>
      let compare := range_in e in
      let compare_diff := (compare - last_time)%Qc in
      if ltb diff compare_diff then mkTimeRange r r :: e :: rest
      else if eqb compare r then e :: rest
      else e :: queue_scan last_time diff r rest
  end.

(** One pass of the body of the outer loop for the point [r]. *)
Definition enqueue_point (last_time r : rational) (queue : list TimeRange)
  : list TimeRange :=
  queue_scan last_time (new_point_diff last_time r) r queue.

(** The outer loop [for (rational r=true_start_range; r<=end_range_adj;
    r+=time_base)].  The loop is not structurally recursive, so it runs on
    fuel: [None] means the fuel ran out before the loop condition failed. *)
Fixpoint invalidate_loop (fuel : nat) (time_base end_range_adj last_time r : rational)
    (queue : list TimeRange) : option (list TimeRange) :=
  if leb r end_range_adj then
    match fuel with
    | O => None
    | S fuel' =>
        invalidate_loop fuel' time_base end_range_adj last_time
          (r + time_base)%Qc (enqueue_point last_time r queue)
    end
  else Some queue.

(** ** Outcomes of a call *)

(** A call either returns, or runs into undefined behaviour (a null
    pointer dereferenced, a container read out of range), or exhausts the
    fuel given to a loop. *)
Inductive Result (A : Type) : Type :=
| Ok (a : A)
| Undefined
| OutOfFuel.
Arguments Ok {A} a.
Arguments Undefined {A}.
Arguments OutOfFuel {A}.

Definition bind {A B : Type} (m : Result A) (k : A -> Result B) : Result B :=
  match m with
  | Ok a => k a
  | Undefined => Undefined
  | OutOfFuel => OutOfFuel
  end.

Notation "x <- m ;; k" := (bind m (fun x => k))
  (at level 61, m at next level, right associativity).

(** ** Collaborators *)

(** [QByteArray] and [QString] are both byte strings here. *)
Definition QByteArray : Type := string.

(** [QByteArray::resize]: cut, or pad at the end. *)
Fixpoint resize (n : nat) (b : QByteArray) : QByteArray :=
  match n with
  | O => EmptyString
  | S n' =>
      match b with
      | EmptyString => String Ascii.zero (resize n' EmptyString)
      | String c b' => String c (resize n' b')
      end
  end.

Definition isEmpty (s : string) : bool :=
  match s with EmptyString => true | String _ _ => false end.

(** The node graph.  Live nodes belong to the project and are reached
    through pointers ([NodePtr]); the copies made by [Compile] are owned by
    the backend and are values ([Node]).  The operations are those the
    backend calls on nodes; what they compute is outside the backend. *)
Class NodeGraph : Type := {
  NodePtr : Type;
  Node : Type;
  NodeOutput : Type;
  (** [n->copy()] followed by [Node::CopyInputs(n, copy, false)] is
      [CopyInputs n (Node_copy n)]. *)
  Node_copy : NodePtr -> Node;
  CopyInputs : NodePtr -> Node -> Node;
  GetDependencies : NodePtr -> list NodePtr;
  DuplicateConnectionsBetweenLists : list NodePtr -> list Node -> list Node;
  (** [drop_cached_values_overlapping] on every output parameter of a node. *)
  drop_cached_values_overlapping : TimeRange -> Node -> Node;
  (** [ViewerOutput::Length()] of a live viewer, and the width, height and
      time base of its [video_params()]. *)
  Length : NodePtr -> rational;
  video_params : NodePtr -> Z * Z * rational;
  (** [texture_input()->get_connected_output()] of a copied viewer. *)
  texture_connected_output : Node -> NodeOutput
}.

(** Modelled from the spec: [VideoRenderingParams] (render/videoparams.h is
    not part of the sources at hand), the render parameters: resolution,
    time base, pixel format, mode and divider.  Whether a value is valid is
    left to the platform ([is_valid]). *)
Record VideoRenderingParams : Type := mkParams {
  width : Z;
  height : Z;
  time_base : rational;
  format : Z;
  mode : Z;
  divider : Z
}.

(** What the platform (Qt, OpenImageIO, the pixel service and the parameter
    class) provides. *)
Class Platform : Type := {
  idealThreadCount : nat;
  is_valid : VideoRenderingParams -> bool;
  PIX_FMT_RGBA16F : Z;
  kOffline : Z;
  (** [QString::number(n).toUtf8()] *)
  number : Z -> string;
  (** SHA-1 of the bytes added to a [QCryptographicHash], and
      [QByteArray::toHex]. *)
  sha1 : string -> QByteArray;
  toHex : QByteArray -> string;
  (** [effective_width()] and [effective_height()] of the parameters and
      [PixelService::GetBufferSize(format, width, height)]. *)
  effective_width : VideoRenderingParams -> Z;
  effective_height : VideoRenderingParams -> Z;
  GetBufferSize : Z -> Z -> Z -> nat;
  (** Doubles are taken as the rationals they stand for: [toDouble] is
      [rational::toDouble()], and [to_double] rounds the exact result of an
      operation or of an integer conversion to a double. *)
  toDouble : rational -> Q;
  to_double : Q -> Q;
  (** [VideoRenderFrameCache::CachePathName]: the file of a hash under a
      cache ID. *)
  cache_path : string -> QByteArray -> string;
  (** An opened [OIIO::ImageInput], and [read_image] of a pixel format into
      a buffer, with the status it returns. *)
  ImageInput : Type;
  read_image : ImageInput -> Z -> QByteArray -> bool * QByteArray
}.

Section Backend.

Context {G : NodeGraph} {P : Platform}.

(** The files on disk at the time of a lookup. *)
Record Disk : Type := mkDisk {
  QFileInfo_exists : string -> bool;
  ImageInput_open : string -> option ImageInput
}.

(** A [QThread] of the pool. *)
Inductive Priority : Type := InheritPriority | LowPriority.
Record QThread : Type := mkThread { running : bool; priority : Priority }.

Record NodeDependency : Type := mkDependency {
  dep_node : NodeOutput;
  dep_in : rational;
  dep_out : rational
}.

(** Modelled from the spec: the [RenderWorker] class (renderworker.h is not
    part of the sources at hand).  A worker has a worker-local idle flag,
    lives on one thread of the pool once moved there, and receives its
    requests as queued (asynchronous) method calls, which it handles in the
    order they were delivered. *)
Inductive WorkerCall : Type :=
| Render (dep : NodeDependency)
| RenderAsSibling (dep : NodeDependency).

Record RenderWorker : Type := mkWorker {
  IsAvailable : bool;
  worker_thread : option nat;
  (** What the worker's own [InitInternal()] returns when [Init()] runs it:
      for the OpenGL worker (openglworker.cpp, lines 22 to 48) [false] when
      the setup below it fails or the context cannot be created. *)
  worker_InitInternal : bool;
  worker_initialized : bool;
  worker_params : option VideoRenderingParams;
  queued_calls : list WorkerCall
}.

(** Modelled from the spec: a queued call is delivered behind the calls
    the worker has not handled yet. *)
Definition invoke_queued (c : WorkerCall) (w : RenderWorker) : RenderWorker :=
  mkWorker (IsAvailable w) (worker_thread w) (worker_InitInternal w)
    (worker_initialized w) (worker_params w) (queued_calls w ++ [c]).

(** Modelled from the spec: [VideoRenderWorker::SetParameters] stores the
    parameters in the worker. *)
Definition worker_SetParameters (p : VideoRenderingParams) (w : RenderWorker)
  : RenderWorker :=
  mkWorker (IsAvailable w) (worker_thread w) (worker_InitInternal w)
    (worker_initialized w) (Some p) (queued_calls w).

(** Modelled from the spec: [moveToThread(threads().at(i))] followed by
    the worker's [Init()] leaves the worker on thread [i]; the worker is
    initialised if its [InitInternal()] succeeded.  Line 306 of
    renderbackend.cpp drops what [Init()] returns. *)
Definition worker_start (i : nat) (w : RenderWorker) : RenderWorker :=
  mkWorker (IsAvailable w) (Some i) (worker_InitInternal w) (worker_InitInternal w)
    (worker_params w) (queued_calls w).

(** Modelled from the spec: [VideoRenderFrameCache] (videorenderframecache.h
    is not part of the sources at hand): a table from times to content
    hashes under a cache ID.  [TimeToHash] gives the stored hash or the
    empty array, [Truncate] drops the entries beyond a time, [SetCacheID]
    rebinds the namespace and keeps the table. *)
Record VideoRenderFrameCache : Type := mkFrameCache {
  frame_cache_id : string;
  time_hash_map : list (rational * QByteArray)
}.

(** Modelled from the spec: the stored content hash for [t], or empty if
    there is none. *)
Definition TimeToHash (t : rational) (c : VideoRenderFrameCache) : QByteArray :=
  match find (fun p => eqb (fst p) t) (time_hash_map c) with
  | Some p => snd p
  | None => EmptyString
  end.

(** Modelled from the spec: drops the mappings for times beyond
    [max_time]. *)
Definition Truncate (max_time : rational) (c : VideoRenderFrameCache)
  : VideoRenderFrameCache :=
  mkFrameCache (frame_cache_id c)
    (filter (fun p => leb (fst p) max_time) (time_hash_map c)).

(** Modelled from the spec: rebinds the cache to a namespace; the table
    stays. *)
Definition SetCacheID (id : string) (c : VideoRenderFrameCache) : VideoRenderFrameCache :=
  mkFrameCache id (time_hash_map c).

(** Modelled from the spec: the path derived from the cache ID and the
    hash. *)
Definition CachePathName (c : VideoRenderFrameCache) (hash : QByteArray)
  : string :=
  cache_path (frame_cache_id c) hash.

(** The decoder cache is only ever cleared by the backend. *)
Definition DecoderCache : Type := list string.

(** ** The backend object *)

(** The state of the most derived class (the OpenGL backend, say). *)
Context {Derived : Type}.

(** The members of [RenderBackend], then those of [VideoRenderBackend],
    then the state of the classes below.  [copied_viewer_node_] points at
    a node of [copied_graph_] and is kept as its index there. *)
Record State : Type := mkState {
  started_ : bool;
  threads_ : list QThread;
  processors_ : list RenderWorker;
  error_ : string;
  decoder_cache_ : DecoderCache;
  viewer_node_ : option NodePtr;
  copied_viewer_node_ : option nat;
  copied_graph_ : list Node;
  source_node_list_ : list NodePtr;
  compiled_ : bool;
  caching_ : bool;
  value_update_queued_ : bool;
  value_update_range_ : TimeRange;
  recompile_queued_ : bool;
  cache_name_ : string;
  cache_time_ : Z;
  cache_id_ : string;
  cache_queue_ : list TimeRange;
  params_ : VideoRenderingParams;
  last_time_requested_ : rational;
  frame_cache_ : VideoRenderFrameCache;
  cache_frame_load_buffer_ : QByteArray;
  derived_ : Derived
}.

Definition set_started_ (v : bool) (s : State) : State :=
  mkState v (threads_ s) (processors_ s) (error_ s) (decoder_cache_ s) (viewer_node_ s)
    (copied_viewer_node_ s) (copied_graph_ s) (source_node_list_ s) (compiled_ s)
    (caching_ s) (value_update_queued_ s) (value_update_range_ s) (recompile_queued_ s)
    (cache_name_ s) (cache_time_ s) (cache_id_ s) (cache_queue_ s) (params_ s)
    (last_time_requested_ s) (frame_cache_ s) (cache_frame_load_buffer_ s) (derived_ s).
Definition set_threads_ (v : list QThread) (s : State) : State :=
  mkState (started_ s) v (processors_ s) (error_ s) (decoder_cache_ s) (viewer_node_ s)
    (copied_viewer_node_ s) (copied_graph_ s) (source_node_list_ s) (compiled_ s)
    (caching_ s) (value_update_queued_ s) (value_update_range_ s) (recompile_queued_ s)
    (cache_name_ s) (cache_time_ s) (cache_id_ s) (cache_queue_ s) (params_ s)
    (last_time_requested_ s) (frame_cache_ s) (cache_frame_load_buffer_ s) (derived_ s).
Definition set_processors_ (v : list RenderWorker) (s : State) : State :=
  mkState (started_ s) (threads_ s) v (error_ s) (decoder_cache_ s) (viewer_node_ s)
    (copied_viewer_node_ s) (copied_graph_ s) (source_node_list_ s) (compiled_ s)
    (caching_ s) (value_update_queued_ s) (value_update_range_ s) (recompile_queued_ s)
    (cache_name_ s) (cache_time_ s) (cache_id_ s) (cache_queue_ s) (params_ s)
    (last_time_requested_ s) (frame_cache_ s) (cache_frame_load_buffer_ s) (derived_ s).
Definition set_error_ (v : string) (s : State) : State :=
  mkState (started_ s) (threads_ s) (processors_ s) v (decoder_cache_ s) (viewer_node_ s)
    (copied_viewer_node_ s) (copied_graph_ s) (source_node_list_ s) (compiled_ s)
    (caching_ s) (value_update_queued_ s) (value_update_range_ s) (recompile_queued_ s)
    (cache_name_ s) (cache_time_ s) (cache_id_ s) (cache_queue_ s) (params_ s)
    (last_time_requested_ s) (frame_cache_ s) (cache_frame_load_buffer_ s) (derived_ s).
Definition set_decoder_cache_ (v : DecoderCache) (s : State) : State :=
  mkState (started_ s) (threads_ s) (processors_ s) (error_ s) v (viewer_node_ s)
    (copied_viewer_node_ s) (copied_graph_ s) (source_node_list_ s) (compiled_ s)
    (caching_ s) (value_update_queued_ s) (value_update_range_ s) (recompile_queued_ s)
    (cache_name_ s) (cache_time_ s) (cache_id_ s) (cache_queue_ s) (params_ s)
    (last_time_requested_ s) (frame_cache_ s) (cache_frame_load_buffer_ s) (derived_ s).
Definition set_viewer_node_ (v : option NodePtr) (s : State) : State :=
  mkState (started_ s) (threads_ s) (processors_ s) (error_ s) (decoder_cache_ s) v
    (copied_viewer_node_ s) (copied_graph_ s) (source_node_list_ s) (compiled_ s)
    (caching_ s) (value_update_queued_ s) (value_update_range_ s) (recompile_queued_ s)
    (cache_name_ s) (cache_time_ s) (cache_id_ s) (cache_queue_ s) (params_ s)
    (last_time_requested_ s) (frame_cache_ s) (cache_frame_load_buffer_ s) (derived_ s).
Definition set_copied_viewer_node_ (v : option nat) (s : State) : State :=
  mkState (started_ s) (threads_ s) (processors_ s) (error_ s) (decoder_cache_ s)
    (viewer_node_ s) v (copied_graph_ s) (source_node_list_ s) (compiled_ s) (caching_ s)
    (value_update_queued_ s) (value_update_range_ s) (recompile_queued_ s) (cache_name_ s)
    (cache_time_ s) (cache_id_ s) (cache_queue_ s) (params_ s) (last_time_requested_ s)
    (frame_cache_ s) (cache_frame_load_buffer_ s) (derived_ s).
Definition set_copied_graph_ (v : list Node) (s : State) : State :=
  mkState (started_ s) (threads_ s) (processors_ s) (error_ s) (decoder_cache_ s)
    (viewer_node_ s) (copied_viewer_node_ s) v (source_node_list_ s) (compiled_ s)
    (caching_ s) (value_update_queued_ s) (value_update_range_ s) (recompile_queued_ s)
    (cache_name_ s) (cache_time_ s) (cache_id_ s) (cache_queue_ s) (params_ s)
    (last_time_requested_ s) (frame_cache_ s) (cache_frame_load_buffer_ s) (derived_ s).
Definition set_source_node_list_ (v : list NodePtr) (s : State) : State :=
  mkState (started_ s) (threads_ s) (processors_ s) (error_ s) (decoder_cache_ s)
    (viewer_node_ s) (copied_viewer_node_ s) (copied_graph_ s) v (compiled_ s) (caching_ s)
    (value_update_queued_ s) (value_update_range_ s) (recompile_queued_ s) (cache_name_ s)
    (cache_time_ s) (cache_id_ s) (cache_queue_ s) (params_ s) (last_time_requested_ s)
    (frame_cache_ s) (cache_frame_load_buffer_ s) (derived_ s).
Definition set_compiled_ (v : bool) (s : State) : State :=
  mkState (started_ s) (threads_ s) (processors_ s) (error_ s) (decoder_cache_ s)
    (viewer_node_ s) (copied_viewer_node_ s) (copied_graph_ s) (source_node_list_ s) v
    (caching_ s) (value_update_queued_ s) (value_update_range_ s) (recompile_queued_ s)
    (cache_name_ s) (cache_time_ s) (cache_id_ s) (cache_queue_ s) (params_ s)
    (last_time_requested_ s) (frame_cache_ s) (cache_frame_load_buffer_ s) (derived_ s).
Definition set_caching_ (v : bool) (s : State) : State :=
  mkState (started_ s) (threads_ s) (processors_ s) (error_ s) (decoder_cache_ s)
    (viewer_node_ s) (copied_viewer_node_ s) (copied_graph_ s) (source_node_list_ s)
    (compiled_ s) v (value_update_queued_ s) (value_update_range_ s) (recompile_queued_ s)
    (cache_name_ s) (cache_time_ s) (cache_id_ s) (cache_queue_ s) (params_ s)
    (last_time_requested_ s) (frame_cache_ s) (cache_frame_load_buffer_ s) (derived_ s).
Definition set_value_update_queued_ (v : bool) (s : State) : State :=
  mkState (started_ s) (threads_ s) (processors_ s) (error_ s) (decoder_cache_ s)
    (viewer_node_ s) (copied_viewer_node_ s) (copied_graph_ s) (source_node_list_ s)
    (compiled_ s) (caching_ s) v (value_update_range_ s) (recompile_queued_ s)
    (cache_name_ s) (cache_time_ s) (cache_id_ s) (cache_queue_ s) (params_ s)
    (last_time_requested_ s) (frame_cache_ s) (cache_frame_load_buffer_ s) (derived_ s).
Definition set_value_update_range_ (v : TimeRange) (s : State) : State :=
  mkState (started_ s) (threads_ s) (processors_ s) (error_ s) (decoder_cache_ s)
    (viewer_node_ s) (copied_viewer_node_ s) (copied_graph_ s) (source_node_list_ s)
    (compiled_ s) (caching_ s) (value_update_queued_ s) v (recompile_queued_ s)
    (cache_name_ s) (cache_time_ s) (cache_id_ s) (cache_queue_ s) (params_ s)
    (last_time_requested_ s) (frame_cache_ s) (cache_frame_load_buffer_ s) (derived_ s).
Definition set_recompile_queued_ (v : bool) (s : State) : State :=
  mkState (started_ s) (threads_ s) (processors_ s) (error_ s) (decoder_cache_ s)
    (viewer_node_ s) (copied_viewer_node_ s) (copied_graph_ s) (source_node_list_ s)
    (compiled_ s) (caching_ s) (value_update_queued_ s) (value_update_range_ s) v
    (cache_name_ s) (cache_time_ s) (cache_id_ s) (cache_queue_ s) (params_ s)
    (last_time_requested_ s) (frame_cache_ s) (cache_frame_load_buffer_ s) (derived_ s).
Definition set_cache_name_ (v : string) (s : State) : State :=
  mkState (started_ s) (threads_ s) (processors_ s) (error_ s) (decoder_cache_ s)
    (viewer_node_ s) (copied_viewer_node_ s) (copied_graph_ s) (source_node_list_ s)
    (compiled_ s) (caching_ s) (value_update_queued_ s) (value_update_range_ s)
    (recompile_queued_ s) v (cache_time_ s) (cache_id_ s) (cache_queue_ s) (params_ s)
    (last_time_requested_ s) (frame_cache_ s) (cache_frame_load_buffer_ s) (derived_ s).
Definition set_cache_time_ (v : Z) (s : State) : State :=
  mkState (started_ s) (threads_ s) (processors_ s) (error_ s) (decoder_cache_ s)
    (viewer_node_ s) (copied_viewer_node_ s) (copied_graph_ s) (source_node_list_ s)
    (compiled_ s) (caching_ s) (value_update_queued_ s) (value_update_range_ s)
    (recompile_queued_ s) (cache_name_ s) v (cache_id_ s) (cache_queue_ s) (params_ s)
    (last_time_requested_ s) (frame_cache_ s) (cache_frame_load_buffer_ s) (derived_ s).
Definition set_cache_id_ (v : string) (s : State) : State :=
  mkState (started_ s) (threads_ s) (processors_ s) (error_ s) (decoder_cache_ s)
    (viewer_node_ s) (copied_viewer_node_ s) (copied_graph_ s) (source_node_list_ s)
    (compiled_ s) (caching_ s) (value_update_queued_ s) (value_update_range_ s)
    (recompile_queued_ s) (cache_name_ s) (cache_time_ s) v (cache_queue_ s) (params_ s)
    (last_time_requested_ s) (frame_cache_ s) (cache_frame_load_buffer_ s) (derived_ s).
Definition set_cache_queue_ (v : list TimeRange) (s : State) : State :=
  mkState (started_ s) (threads_ s) (processors_ s) (error_ s) (decoder_cache_ s)
    (viewer_node_ s) (copied_viewer_node_ s) (copied_graph_ s) (source_node_list_ s)
    (compiled_ s) (caching_ s) (value_update_queued_ s) (value_update_range_ s)
    (recompile_queued_ s) (cache_name_ s) (cache_time_ s) (cache_id_ s) v (params_ s)
    (last_time_requested_ s) (frame_cache_ s) (cache_frame_load_buffer_ s) (derived_ s).
Definition set_params_ (v : VideoRenderingParams) (s : State) : State :=
  mkState (started_ s) (threads_ s) (processors_ s) (error_ s) (decoder_cache_ s)
    (viewer_node_ s) (copied_viewer_node_ s) (copied_graph_ s) (source_node_list_ s)
    (compiled_ s) (caching_ s) (value_update_queued_ s) (value_update_range_ s)
    (recompile_queued_ s) (cache_name_ s) (cache_time_ s) (cache_id_ s) (cache_queue_ s) v
    (last_time_requested_ s) (frame_cache_ s) (cache_frame_load_buffer_ s) (derived_ s).
Definition set_last_time_requested_ (v : rational) (s : State) : State :=
  mkState (started_ s) (threads_ s) (processors_ s) (error_ s) (decoder_cache_ s)
    (viewer_node_ s) (copied_viewer_node_ s) (copied_graph_ s) (source_node_list_ s)
    (compiled_ s) (caching_ s) (value_update_queued_ s) (value_update_range_ s)
    (recompile_queued_ s) (cache_name_ s) (cache_time_ s) (cache_id_ s) (cache_queue_ s)
    (params_ s) v (frame_cache_ s) (cache_frame_load_buffer_ s) (derived_ s).
Definition set_frame_cache_ (v : VideoRenderFrameCache) (s : State) : State :=
  mkState (started_ s) (threads_ s) (processors_ s) (error_ s) (decoder_cache_ s)
    (viewer_node_ s) (copied_viewer_node_ s) (copied_graph_ s) (source_node_list_ s)
    (compiled_ s) (caching_ s) (value_update_queued_ s) (value_update_range_ s)
    (recompile_queued_ s) (cache_name_ s) (cache_time_ s) (cache_id_ s) (cache_queue_ s)
    (params_ s) (last_time_requested_ s) v (cache_frame_load_buffer_ s) (derived_ s).
Definition set_cache_frame_load_buffer_ (v : QByteArray) (s : State) : State :=
  mkState (started_ s) (threads_ s) (processors_ s) (error_ s) (decoder_cache_ s)
    (viewer_node_ s) (copied_viewer_node_ s) (copied_graph_ s) (source_node_list_ s)
    (compiled_ s) (caching_ s) (value_update_queued_ s) (value_update_range_ s)
    (recompile_queued_ s) (cache_name_ s) (cache_time_ s) (cache_id_ s) (cache_queue_ s)
    (params_ s) (last_time_requested_ s) (frame_cache_ s) v (derived_ s).
Definition set_derived_ (v : Derived) (s : State) : State :=
  mkState (started_ s) (threads_ s) (processors_ s) (error_ s) (decoder_cache_ s)
    (viewer_node_ s) (copied_viewer_node_ s) (copied_graph_ s) (source_node_list_ s)
    (compiled_ s) (caching_ s) (value_update_queued_ s) (value_update_range_ s)
    (recompile_queued_ s) (cache_name_ s) (cache_time_ s) (cache_id_ s) (cache_queue_ s)
    (params_ s) (last_time_requested_ s) (frame_cache_ s) (cache_frame_load_buffer_ s) v.

(** The virtual functions that [VideoRenderBackend] leaves to the classes
    below it, and [InitInternal]/[CloseInternal] as the most derived class
    overrides them.  A hook sees the whole object. *)
Class Subclass : Type := {
  InitInternal : State -> bool * State;
  CloseInternal : State -> State;
  CompileInternal : State -> bool * State;
  DecompileInternal : State -> State
}.

Context {Sub : Subclass}.

(** What a hook leaves behind: its own state, the worker pool, the error
    string (through [SetError]), the decoder cache and the load buffer.
    The members the base class schedules and compiles with are taken from
    the state before the call: a hook does not call back into the public
    interface of the backend. *)
Definition protect (before after : State) : State :=
  set_processors_ (processors_ after)
    (set_error_ (error_ after)
      (set_decoder_cache_ (decoder_cache_ after)
        (set_cache_frame_load_buffer_ (cache_frame_load_buffer_ after)
          (set_derived_ (derived_ after) before)))).

(** *** [RenderBackend] *)

Definition GetError (st : State) : string := error_ st.

Definition SetError (error : string) (st : State) : State := set_error_ error st.

Definition IsInitiated (st : State) : bool := started_ st.

(** The accessor [viewer_node()] returns the copied viewer. *)
Definition viewer_node (st : State) : option nat := copied_viewer_node_ st.

Definition ViewerIsConnected (st : State) : bool :=
  match viewer_node_ st with Some _ => true | None => false end.

Definition cache_id (st : State) : string := cache_id_ st.

(** [InitWorkers]: worker [i] goes to [threads().at(i)], which has to
    exist. *)
Fixpoint InitWorkers_from (i n_threads : nat) (ws : list RenderWorker)
  : Result (list RenderWorker) :=
  match ws with
  | [] => Ok []
  | w :: rest =>
      if Nat.ltb i n_threads then
        rest' <- InitWorkers_from (S i) n_threads rest ;;
        Ok (worker_start i w :: rest')
      else Undefined
  end.

Definition InitWorkers (st : State) : Result State :=
  ws <- InitWorkers_from 0 (List.length (threads_ st)) (processors_ st) ;;
  Ok (set_processors_ ws st).

Definition Close (st : State) : State :=
  if negb (started_ st) then st
  else
    let st := set_started_ false st in
    let st := protect st (CloseInternal st) in
    let st := set_decoder_cache_ [] st in
    (* every thread is told to quit and waited for, then the vector is
       cleared *)
    let st := set_threads_ [] st in
    set_processors_ [] st.

(** [Init] resizes [threads_] to the ideal thread count and replaces every
    entry by a new thread, started at low priority. *)
Definition Init (st : State) : Result (bool * State) :=
  if started_ st then Ok (true, st)
  else
    let st := set_threads_ (repeat (mkThread true LowPriority) idealThreadCount) st in
    let (ok, st') := InitInternal st in
    let st := set_started_ ok (protect st st') in
    st <- InitWorkers st ;;
    let st := if negb (started_ st) then Close st else st in
    Ok (started_ st, st).

Definition Decompile (st : State) : State :=
  if negb (compiled_ st) then st
  else
    let st := protect st (DecompileInternal st) in
    let st := set_copied_graph_ [] st in
    let st := set_copied_viewer_node_ None st in
    let st := set_source_node_list_ [] st in
    set_compiled_ false st.

(** The part of [Compile] after the early return. *)
Definition Compile_copy (st : State) : Result (bool * State) :=
  match viewer_node_ st with
  | None => Undefined
  | Some v =>
      let st := set_source_node_list_ (source_node_list_ st ++ v :: GetDependencies v) st in
      let copies := map (fun n => CopyInputs n (Node_copy n)) (source_node_list_ st) in
      let st := set_copied_graph_ (copied_graph_ st ++ copies) st in
      let st := set_copied_viewer_node_ (Some 0%nat) st in
      let st :=
        set_copied_graph_
          (DuplicateConnectionsBetweenLists (source_node_list_ st) (copied_graph_ st)) st in
      let (ok, st') := CompileInternal st in
      let st := set_compiled_ ok (protect st st') in
      let st := if negb (compiled_ st) then Decompile st else st in
      Ok (compiled_ st, st)
  end.

Definition Compile (st : State) : Result (bool * State) :=
  if recompile_queued_ st then
    Compile_copy (set_recompile_queued_ false (Decompile st))
  else if compiled_ st then Ok (true, st)
  else Compile_copy st.

Definition QueueRecompile (st : State) : State := set_recompile_queued_ true st.

Definition QueueValueUpdate (range : TimeRange) (st : State) : State :=
  set_value_update_range_ range (set_value_update_queued_ true st).

Definition SequenceLength (st : State) : rational :=
  match viewer_node_ st with
  | None => of_int 0
  | Some v => Length v
  end.

(** The loop of [UpdateNodeInputs]: node [i] of the copied graph is
    refreshed from node [i] of the source list. *)
Fixpoint refresh_nodes (range : TimeRange) (srcs : list NodePtr) (dsts : list Node)
  : Result (list Node) :=
  match srcs with
  | [] => Ok dsts
  | src :: srcs' =>
      match dsts with
      | [] => Undefined
      | dst :: dsts' =>
          rest <- refresh_nodes range srcs' dsts' ;;
          Ok (drop_cached_values_overlapping range (CopyInputs src dst) :: rest)
      end
  end.

Definition UpdateNodeInputs (st : State) : Result State :=
  if value_update_queued_ st then
    nodes <- refresh_nodes (value_update_range_ st) (source_node_list_ st)
               (copied_graph_ st) ;;
    Ok (set_value_update_queued_ false (set_copied_graph_ nodes st))
  else Ok st.

(** The [foreach] of [GenerateData]: the first worker that is available or
    is the last of the pool gets the queued [Render] call. *)
Fixpoint hand_to_worker (dep : NodeDependency) (ws : list RenderWorker)
  : option (list RenderWorker) :=
  match ws with
  | [] => None
  | w :: rest =>
      if IsAvailable w || (match rest with [] => true | _ :: _ => false end)
      then Some (invoke_queued (Render dep) w :: rest)
      else option_map (cons w) (hand_to_worker dep rest)
  end.

(** [VideoRenderBackend::GetDependentInput] followed by
    [get_connected_output()]. *)
Definition dependent_output (st : State) : Result NodeOutput :=
  match viewer_node st with
  | None => Undefined
  | Some i =>
      match nth_error (copied_graph_ st) i with
      | None => Undefined
      | Some v => Ok (texture_connected_output v)
      end
  end.

Definition GenerateData (range : TimeRange) (st : State) : Result (bool * State) :=
  c <- Compile st ;;
  let (ok, st) := c in
  if negb ok then Ok (false, st)
  else
    out <- dependent_output st ;;
    let dep := mkDependency out (range_in range) (range_out range) in
    match hand_to_worker dep (processors_ st) with
    | Some ws => Ok (true, set_processors_ ws st)
    | None => Ok (false, st)
    end.

(** The [foreach] of [ThreadRequestedSibling]: the first worker that is
    available gets the queued [RenderAsSibling] call; there is no worker
    of last resort here. *)
Fixpoint hand_to_sibling (dep : NodeDependency) (ws : list RenderWorker)
  : list RenderWorker :=
  match ws with
  | [] => []
  | w :: rest =>
      if IsAvailable w then invoke_queued (RenderAsSibling dep) w :: rest
      else w :: hand_to_sibling dep rest
  end.

Definition ThreadRequestedSibling (dep : NodeDependency) (st : State) : State :=
  set_processors_ (hand_to_sibling dep (processors_ st)) st.

Definition CacheNext (st : State) : Result State :=
  i <- Init st ;;
  let (ok, st) := i in
  if negb ok then Ok st
  else
    match cache_queue_ st with
    | [] => Ok st
    | cache_frame :: rest =>
        if negb (ViewerIsConnected st) || caching_ st then Ok st
        else
          st <- UpdateNodeInputs st ;;
          let st := set_cache_queue_ rest st in
          g <- GenerateData cache_frame st ;;
          let (c, st) := g in
          Ok (set_caching_ c st)
    end.

(** *** [VideoRenderBackend] *)

Definition VideoRenderBackend_InitInternal (st : State) : bool * State :=
  (true,
   set_cache_frame_load_buffer_
     (resize (GetBufferSize (format (params_ st)) (effective_width (params_ st))
                (effective_height (params_ st)))
        (cache_frame_load_buffer_ st)) st).

Definition VideoRenderBackend_CloseInternal (st : State) : State :=
  set_cache_frame_load_buffer_ EmptyString st.

(** The hash object is the bytes added so far. *)
Definition GenerateCacheIDInternal (st : State) (hash : string) : bool * string :=
  if negb (is_valid (params_ st)) then (false, hash)
  else
    (true,
     hash ++ number (width (params_ st)) ++ number (height (params_ st))
          ++ number (format (params_ st)) ++ number (divider (params_ st)))%string.

Definition CacheIDChangedEvent (id : string) (st : State) : State :=
  set_frame_cache_ (SetCacheID id (frame_cache_ st)) st.

Definition RegenerateCacheID (st : State) : State :=
  let cleared := CacheIDChangedEvent EmptyString (set_cache_id_ EmptyString st) in
  if isEmpty (cache_name_ st) then cleared
  else if Z.eqb (cache_time_ st) 0 then cleared
  else
    let (ok, hash) := GenerateCacheIDInternal st EmptyString in
    if negb ok then cleared
    else
      let hash := (hash ++ cache_name_ st ++ number (cache_time_ st))%string in
      let bytes := sha1 hash in
      let st := set_cache_id_ (toHex bytes) st in
      CacheIDChangedEvent (cache_id_ st) st.

(** [now] is [QDateTime::currentMSecsSinceEpoch()] at the call. *)
Definition SetCacheName (now : Z) (s : string) (st : State) : State :=
  RegenerateCacheID (set_cache_time_ now (set_cache_name_ s st)).

Definition SetParameters (params : VideoRenderingParams) (st : State) : State :=
  let st := set_params_ params st in
  let st := set_processors_ (map (worker_SetParameters (params_ st)) (processors_ st)) st in
  RegenerateCacheID st.

(** [ConnectViewer] connects two signals of the viewer to the slots
    [InvalidateCache] and [QueueRecompile], which leaves the members as
    they are, and sets the parameters; [DisconnectViewer] only undoes the
    connections. *)
Definition ConnectViewer (node : NodePtr) (st : State) : State :=
  let '(w, h, tb) := video_params node in
  SetParameters (mkParams w h tb PIX_FMT_RGBA16F kOffline 2) st.

Definition DisconnectViewer (node : NodePtr) (st : State) : State := st.

Definition SetViewerNode (node : option NodePtr) (st : State) : State :=
  let st :=
    match viewer_node_ st with
    | Some old => Decompile (DisconnectViewer old st)
    | None => st
    end in
  let st := set_viewer_node_ node st in
  match viewer_node_ st with
  | Some v => ConnectViewer v st
  | None => st
  end.

(** [qFloor(double)] returns an [int]: the floor when it lies between
    [INT_MIN] and [INT_MAX]; the conversion of any other double to [int] has
    no defined result. *)
Definition qFloor (v : Q) : option Z :=
  let f := Qfloor v in
  if Z.leb (- 2 ^ 31) f && Z.leb f (2 ^ 31 - 1) then Some f else None.

(** Lines 55 to 58 of videorenderbackend.cpp: the double handed to
    [qFloor]. *)
Definition start_range_quotient (time_base start_range_adj : rational) : Q :=
  let start_range_dbl := toDouble start_range_adj in
  let start_range_numf :=
    to_double (start_range_dbl * to_double (inject_Z (denominator time_base))) in
  to_double (start_range_numf / to_double (inject_Z (numerator time_base))).

(** Whether line 58 is defined: the floor fits an [int], and its product
    with the numerator fits the [int64_t] it is stored in. *)
Definition start_range_fits (time_base start_range_adj : rational) : bool :=
  match qFloor (start_range_quotient time_base start_range_adj) with
  | Some f =>
      let start_range_numround := (f * numerator time_base)%Z in
      Z.leb (- 2 ^ 63) start_range_numround && Z.leb start_range_numround (2 ^ 63 - 1)
  | None => false
  end.

(** Lines 55 to 59 of videorenderbackend.cpp: the start of the range on the
    grid of the time base, where line 58 is defined ([start_range_fits]);
    [enqueue_range] and [InvalidateCache] below look at it nowhere else. *)
Definition true_start_range (time_base start_range_adj : rational) : rational :=
  let start_range_numround :=
    (Qfloor (start_range_quotient time_base start_range_adj) * numerator time_base)%Z in
  make start_range_numround (Qden (this time_base)).

(** Lines 46 to 97: the queue after the enumeration of the range; there is
    none when line 58 is not defined, or when the fuel runs out. *)
Definition enqueue_range (fuel : nat) (start_range end_range : rational) (st : State)
  : option (list TimeRange) :=
  let start_range_adj := qMax (of_int 0) start_range in
  let end_range_adj := qMin (SequenceLength st) end_range in
  if start_range_fits (time_base (params_ st)) start_range_adj then
    invalidate_loop fuel (time_base (params_ st)) end_range_adj (last_time_requested_ st)
      (true_start_range (time_base (params_ st)) start_range_adj) (cache_queue_ st)
  else None.

Definition InvalidateCache (fuel : nat) (start_range end_range : rational) (st : State)
  : Result State :=
  if negb (is_valid (params_ st)) then Ok st
  else if negb (start_range_fits (time_base (params_ st)) (qMax (of_int 0) start_range))
  then Undefined
  else
    match enqueue_range fuel start_range end_range st with
    | None => OutOfFuel
    | Some queue =>
        let st := set_cache_queue_ queue st in
        let st := set_frame_cache_ (Truncate (SequenceLength st) (frame_cache_ st)) st in
        let st := QueueValueUpdate (mkTimeRange start_range end_range) st in
        CacheNext st
    end.

(** [GetCachedFrame] returns a pointer to the load buffer, or null; the
    pointer is given here as the bytes it points at. *)
Definition GetCachedFrame (disk : Disk) (time : rational) (st : State)
  : option QByteArray * State :=
  let st := set_last_time_requested_ time st in
  match viewer_node st with
  | None => (None, st)
  | Some _ =>
      if isEmpty (cache_id st) then (None, st)
      else if negb (is_valid (params_ st)) then (None, st)
      else
        let frame_hash := TimeToHash time (frame_cache_ st) in
        if negb (isEmpty frame_hash) then
          let fn := CachePathName (frame_cache_ st) frame_hash in
          if QFileInfo_exists disk fn then
            match ImageInput_open disk fn with
            | Some input =>
                let (_, buffer) :=
                  read_image input (format (params_ st)) (cache_frame_load_buffer_ st) in
                let st := set_cache_frame_load_buffer_ buffer st in
                (Some (cache_frame_load_buffer_ st), st)
            | None => (None, st)
            end
          else (None, st)
        else (None, st)
  end.

End Backend.

Arguments State {G} Derived.
Arguments Subclass {G} Derived.

(** ** A small project to run the backend on *)

(** A viewer (node 0) of a given length over two nodes it depends on; a
    copy of a node carries the number of the node it was copied from. *)
Definition example_graph (length : rational) (tb : rational) : NodeGraph := {|
  NodePtr := nat;
  Node := nat;
  NodeOutput := nat;
  Node_copy := fun n => n;
  CopyInputs := fun _ copy => copy;
  GetDependencies := fun n => match n with O => [1; 2]%nat | _ => [] end;
  DuplicateConnectionsBetweenLists := fun _ copies => copies;
  drop_cached_values_overlapping := fun _ n => n;
  Length := fun _ => length;
  video_params := fun _ => (4%Z, 2%Z, tb);
  texture_connected_output := fun n => n
|}.

(** Two hardware threads; parameters are valid when the frame is not empty
    and the time base is positive; doubles are exact, which they are on the
    numbers that go through them below (0, 1/2 and small integers); the
    hash is left readable; an opened image is its pixels, and reading one
    without pixels fails and leaves the buffer. *)
Definition example_platform : Platform := {|
  idealThreadCount := 2;
  is_valid := fun p => Z.ltb 0 (width p) && Z.ltb 0 (height p) && ltb (of_int 0) (time_base p);
  PIX_FMT_RGBA16F := 3;
  kOffline := 1;
  number := fun n => NilZero.string_of_int (Z.to_int n);
  sha1 := fun s => s;
  toHex := fun s => s;
  effective_width := fun p => (width p / divider p)%Z;
  effective_height := fun p => (height p / divider p)%Z;
  GetBufferSize := fun _ w h => Z.to_nat (w * h);
  toDouble := fun r => this r;
  to_double := fun q => q;
  cache_path := fun id hash => (id ++ "/" ++ hash)%string;
  ImageInput := QByteArray;
  read_image := fun pixels _ buffer =>
    if isEmpty pixels then (false, buffer) else (true, pixels)
|}.

Definition idle_worker {G : NodeGraph} : RenderWorker :=
  mkWorker true None true false None [].

(** A class below [VideoRenderBackend] in the manner of the OpenGL backend:
    its [InitInternal] runs the one of [VideoRenderBackend] and makes one
    worker per thread; [init_ok] and [compile_ok] say whether its own setup
    and its own compilation succeed, and a failed setup leaves a message. *)
Definition example_subclass {G : NodeGraph} {P : Platform} (init_ok compile_ok : bool)
  : Subclass unit := {|
  InitInternal := fun st =>
    let (_, st) := VideoRenderBackend_InitInternal st in
    if init_ok then
      (true, set_processors_ (repeat idle_worker (List.length (threads_ st))) st)
    else (false, SetError "Failed to create OpenGL context" st);
  CloseInternal := fun st => VideoRenderBackend_CloseInternal st;
  CompileInternal := fun st => (compile_ok, st);
  DecompileInternal := fun st => st
|}.

(** The object after the constructors of [RenderBackend] and
    [VideoRenderBackend], the latter calling [SetCacheName("Test")]. *)
Definition constructed {G : NodeGraph} {P : Platform} (now : Z) : State unit :=
  SetCacheName now "Test"
    (mkState false [] [] EmptyString [] None None [] [] false false false
       (mkTimeRange (of_int 0) (of_int 0)) false EmptyString 0 EmptyString []
       (mkParams 0 0 (of_int 0) 0 0 0) (of_int 0) (mkFrameCache EmptyString [])
       EmptyString tt).

(** The times of a queue, as fractions in lowest terms. *)
Definition queue_times (queue : list TimeRange) : list Q :=
  map (fun e => this (range_in e)) queue.

(** A disk without files. *)
Definition no_files {P : Platform} : Disk := mkDisk (fun _ => false) (fun _ => None).

(** *** The playhead scenario of the spec: a sequence of 10 s at 24 frames
    per second, the playhead at 2 s, then [Invalidate(0, 10)]. *)
Module PlayheadScenario.
#[local] Instance graph : NodeGraph := example_graph (of_int 10) (make 1 24).
#[local] Instance platform : Platform := example_platform.
#[local] Instance subclass : Subclass unit := example_subclass true true.

Definition opened : State unit := SetViewerNode (Some 0%nat) (constructed 1000).
Definition playhead_at_2 : State unit := snd (GetCachedFrame no_files (of_int 2) opened).
Definition enqueued : option (list TimeRange) :=
  enqueue_range 300 (of_int 0) (of_int 10) playhead_at_2.
Definition invalidated : Result (State unit) :=
  InvalidateCache 300 (of_int 0) (of_int 10) playhead_at_2.
End PlayheadScenario.

(** *** Overlapping invalidations: a sequence of 3 s at one frame per
    second; the playhead goes to 2 s, the ranges [1, 3] and [0, 3] are
    invalidated, the playhead goes back to 0 s and [0, 3] is invalidated
    again. *)
Module OverlapScenario.
#[local] Instance graph : NodeGraph := example_graph (of_int 3) (of_int 1).
#[local] Instance platform : Platform := example_platform.
#[local] Instance subclass : Subclass unit := example_subclass true true.

Definition opened : State unit := SetViewerNode (Some 0%nat) (constructed 1000).
Definition run : Result (State unit) :=
  let st := snd (GetCachedFrame no_files (of_int 2) opened) in
  st <- InvalidateCache 10 (of_int 1) (of_int 3) st ;;
  InvalidateCache 10 (of_int 0) (of_int 3) st.
Definition rerun : Result (State unit) :=
  st <- run ;;
  let st := snd (GetCachedFrame no_files (of_int 0) st) in
  InvalidateCache 10 (of_int 0) (of_int 3) st.

(** The backend before a viewer is attached, and an invalidation there. *)
Definition fresh : State unit := constructed 1000.
Definition fresh_invalidated : Result (State unit) :=
  InvalidateCache 10 (of_int 0) (of_int 3) fresh.

(** The backend after a first [Compile], and after [Init]. *)
Definition compiled_once : State unit :=
  match Compile opened with Ok (_, st) => st | _ => opened end.
Definition started : State unit :=
  match Init opened with Ok (_, st) => st | _ => opened end.
End OverlapScenario.

(** *** A range that starts between two frames: a sequence of 10 s at one
    frame per second, and [Invalidate(1/2, 2)]. *)
Module SnapScenario.
#[local] Instance graph : NodeGraph := example_graph (of_int 10) (of_int 1).
#[local] Instance platform : Platform := example_platform.
#[local] Instance subclass : Subclass unit := example_subclass true true.

Definition opened : State unit := SetViewerNode (Some 0%nat) (constructed 1000).
Definition enqueued : option (list TimeRange) :=
  enqueue_range 10 (make 1 2) (of_int 2) opened.
(** The whole call: 0 s is dispatched at its end. *)
Definition invalidated : State unit :=
  match InvalidateCache 10 (make 1 2) (of_int 2) opened with Ok st => st | _ => opened end.
End SnapScenario.

(** *** A backend whose setup fails. *)
Module SetupFailure.
#[local] Instance graph : NodeGraph := example_graph (of_int 10) (of_int 1).
#[local] Instance platform : Platform := example_platform.
#[local] Instance subclass : Subclass unit := example_subclass false true.

Definition opened : State unit := SetViewerNode (Some 0%nat) (constructed 1000).
Definition initialised : Result (bool * State unit) := Init opened.
End SetupFailure.

(** *** A backend whose graph does not compile. *)
Module CompileFailure.
#[local] Instance graph : NodeGraph := example_graph (of_int 10) (of_int 1).
#[local] Instance platform : Platform := example_platform.
#[local] Instance subclass : Subclass unit := example_subclass true false.

Definition opened : State unit := SetViewerNode (Some 0%nat) (constructed 1000).
(** [InvalidateCache(0, 1)] queues 0 s and 1 s and dispatches once. *)
Definition invalidated : Result (State unit) :=
  InvalidateCache 10 (of_int 0) (of_int 1) opened.
(** The next dispatch. *)
Definition dispatched_again : Result (State unit) :=
  st <- invalidated ;;
  CacheNext st.
End CompileFailure.

(** *** A session: a sequence of 10 s at one frame per second, taken
    through the life of a backend. *)
Module Session.
#[local] Instance graph : NodeGraph := example_graph (of_int 10) (of_int 1).
#[local] Instance platform : Platform := example_platform.
#[local] Instance subclass : Subclass unit := example_subclass true true.

Definition fresh : State unit := constructed 1000.
Definition opened : State unit := SetViewerNode (Some 0%nat) fresh.
Definition started : State unit :=
  match Init opened with Ok (_, st) => st | _ => opened end.
Definition compiled : State unit :=
  match Compile opened with Ok (_, st) => st | _ => opened end.
(** Another viewer (node 1) is attached to the compiled backend, and the
    graph is compiled again. *)
Definition switched : State unit := SetViewerNode (Some 1%nat) compiled.
Definition recompiled : State unit :=
  match Compile switched with Ok (_, st) => st | _ => switched end.
(** The viewer is taken away; the parameters stay. *)
Definition detached : State unit := SetViewerNode None opened.
(** [Invalidate(0, 1)] on the opened backend dispatches 0 s. *)
Definition in_flight : State unit :=
  match InvalidateCache 10 (of_int 0) (of_int 1) opened with Ok st => st | _ => opened end.
(** The queues of three invalidations, each on its own. *)
Definition queue_2_4 : list TimeRange :=
  match enqueue_range 10 (of_int 2) (of_int 4) opened with Some q => q | None => [] end.
Definition queue_in_flight : list TimeRange :=
  match enqueue_range 10 (of_int 3) (of_int 4) in_flight with Some q => q | None => [] end.
Definition queue_detached : list TimeRange :=
  match enqueue_range 10 (of_int (-1)) (of_int 4) detached with Some q => q | None => [] end.
(** The frame in flight has completed, and the next dispatch runs. *)
Definition idle_again : State unit := set_caching_ false in_flight.
Definition dispatched : State unit :=
  match CacheNext idle_again with Ok st => st | _ => idle_again end.
(** [Invalidate(3, 4)] has come in while 0 s was in flight, and then the
    frame has completed: 1 s, 3 s and 4 s are queued and a value update is
    due. *)
Definition refresh_due : State unit :=
  match InvalidateCache 10 (of_int 3) (of_int 4) in_flight with
  | Ok st => set_caching_ false st
  | _ => in_flight
  end.
End Session.

(** *** The same session on a graph that does not compile. *)
Module FailedCompile.
#[local] Instance graph : NodeGraph := example_graph (of_int 10) (of_int 1).
#[local] Instance platform : Platform := example_platform.
#[local] Instance subclass : Subclass unit := example_subclass true false.

Definition opened : State unit := SetViewerNode (Some 0%nat) (constructed 1000).
Definition failed : State unit :=
  match Compile opened with Ok (_, st) => st | _ => opened end.
End FailedCompile.

(** ** Notions of the specification *)

(** The distance of a point to the playhead as the spec has it: the signed
    distance, and five times its magnitude for a point behind the
    playhead. *)
Definition weighted_distance (playhead t : rational) : rational :=
  if ltb t playhead then ((playhead - t) * of_int 5)%Qc else (t - playhead)%Qc.

(** A time on the grid of the time base. *)
Definition aligned (time_base t : rational) : Prop :=
  exists k : Z, t = (of_int k * time_base)%Qc.

(** The points of a queue. *)
Definition points (queue : list TimeRange) : list rational := map range_in queue.

(** One queue entry is for an earlier time than another. *)
Definition earlier (a b : TimeRange) : Prop := (range_in a < range_in b)%Qc.

(** Doubles whose rounding keeps what is not negative so: the double for
    a number that is not negative is not negative.  Rounding to nearest, as
    IEEE 754 does it, is of this kind, 0 being a double. *)
Definition sign_preserving_doubles {P : Platform} : Prop :=
  (forall r : rational, (0 <= r)%Qc -> 0 <= toDouble r) /\
  (forall q : Q, 0 <= q -> 0 <= to_double q).

(** The cache ID of the spec: the hash over width, height, pixel format,
    downscale divider, namespace name and creation timestamp, in hex. *)
Definition cache_id_of {P : Platform} (w h fmt div : Z) (name : string) (timestamp : Z)
  : string :=
  toHex
    (sha1 (number w ++ number h ++ number fmt ++ number div ++ name ++ number timestamp)%string).

(** The worker the spec gives the head of the queue to: the first idle
    one, or the last of the pool when none is idle. *)
Fixpoint first_idle {G : NodeGraph} (ws : list RenderWorker) : option nat :=
  match ws with
  | [] => None
  | w :: rest => if IsAvailable w then Some O else option_map S (first_idle rest)
  end.

Definition chosen_worker {G : NodeGraph} (ws : list RenderWorker) : option nat :=
  match first_idle ws with
  | Some i => Some i
  | None =>
      match ws with
      | [] => None
      | _ :: _ => Some (Nat.pred (List.length ws))
      end
  end.

(** Worker [i] of the pool receives a queued call. *)
Fixpoint give {G : NodeGraph} (i : nat) (c : WorkerCall) (ws : list RenderWorker)
  : list RenderWorker :=
  match ws with
  | [] => []
  | w :: rest =>
      match i with
      | O => invoke_queued c w :: rest
      | S i' => w :: give i' c rest
      end
  end.

(** The calls every worker of a pool has received. *)
Definition calls_received {G : NodeGraph} (ws : list RenderWorker) : list WorkerCall :=
  List.concat (map queued_calls ws).

(** Point number [k] of the enumeration that starts at [r]. *)
Definition grid_point (r tb : rational) (k : nat) : rational :=
  (r + of_int (Z.of_nat k) * tb)%Qc.

(** The number of whole time bases the loop start lies from 0, as lines 56
    to 58 compute it. *)
Definition snap_index {P : Platform} (tb s : rational) : Z :=
  Qfloor (start_range_quotient tb s).

(** What can be called on a backend between two calls of [Compile],
    leaving out what asks for a new compilation or discards the snapshot:
    [QueueRecompile], [Decompile] and [SetViewerNode]. *)
Inductive Call {G : NodeGraph} {P : Platform} : Type :=
| CallInit
| CallClose
| CallCompile
| CallQueueValueUpdate (range : TimeRange)
| CallCacheNext
| CallThreadRequestedSibling (dep : NodeDependency)
| CallSetCacheName (now : Z) (name : string)
| CallSetParameters (params : VideoRenderingParams)
| CallInvalidateCache (fuel : nat) (start_range end_range : rational)
| CallGetCachedFrame (disk : Disk) (time : rational).

Definition perform {G : NodeGraph} {P : Platform} {Derived : Type} {Sub : Subclass Derived}
    (c : Call) (st : State Derived) : Result (State Derived) :=
  match c with
  | CallInit => i <- Init st ;; Ok (snd i)
  | CallClose => Ok (Close st)
  | CallCompile => r <- Compile st ;; Ok (snd r)
  | CallQueueValueUpdate range => Ok (QueueValueUpdate range st)
  | CallCacheNext => CacheNext st
  | CallThreadRequestedSibling dep => Ok (ThreadRequestedSibling dep st)
  | CallSetCacheName now name => Ok (SetCacheName now name st)
  | CallSetParameters params => Ok (SetParameters params st)
  | CallInvalidateCache fuel start_range end_range =>
      InvalidateCache fuel start_range end_range st
  | CallGetCachedFrame disk time => Ok (snd (GetCachedFrame disk time st))
  end.

Fixpoint perform_all {G : NodeGraph} {P : Platform} {Derived : Type}
    {Sub : Subclass Derived} (calls : list Call) (st : State Derived)
  : Result (State Derived) :=
  match calls with
  | [] => Ok st
  | c :: rest =>
      st' <- perform c st ;;
      perform_all rest st'
  end.

(** The snapshot of one state is the one of another: compiled or not, a
    recompilation asked for or not, the source list, the copied viewer, and
    as many copied nodes. *)
Definition snapshot_kept {G : NodeGraph} {Derived : Type} (st st' : State Derived) : Prop :=
  compiled_ st' = compiled_ st /\ recompile_queued_ st' = recompile_queued_ st /\
  source_node_list_ st' = source_node_list_ st /\
  copied_viewer_node_ st' = copied_viewer_node_ st /\
  List.length (copied_graph_ st') = List.length (copied_graph_ st).

(** The time a queued call asks for. *)
Definition call_time {G : NodeGraph} (c : WorkerCall) : Q :=
  match c with
  | Render dep => this (dep_in dep)
  | RenderAsSibling dep => this (dep_in dep)
  end.

(** ** Facts about the time type *)

(** The boolean comparisons decide the order of [Qc]. *)
Lemma rational_ltb_spec a b : ltb a b = true <-> (a < b)%Qc.
Proof.
  unfold ltb. rewrite Qclt_alt.
  destruct (a ?= b)%Qc; split; congruence.
Qed.

Lemma rational_leb_spec a b : leb a b = true <-> (a <= b)%Qc.
Proof.
  unfold leb. rewrite Qcle_alt.
  destruct (a ?= b)%Qc; split; congruence.
Qed.

Lemma rational_eqb_spec a b : eqb a b = true <-> a = b.
Proof.
  unfold eqb. rewrite Qceq_alt.
  destruct (a ?= b)%Qc; split; congruence.
Qed.

Lemma rational_ltb_false a b : ltb a b = false <-> (b <= a)%Qc.
Proof.
  split; intro H.
  - apply Qcnot_lt_le. intro L. apply rational_ltb_spec in L. congruence.
  - destruct (ltb a b) eqn:E; [|reflexivity].
    apply rational_ltb_spec in E. exfalso. exact (Qcle_not_lt _ _ H E).
Qed.

Lemma rational_leb_false a b : leb a b = false <-> (b < a)%Qc.
Proof.
  split; intro H.
  - apply Qcnot_le_lt. intro L. apply rational_leb_spec in L. congruence.
  - destruct (leb a b) eqn:E; [|reflexivity].
    apply rational_leb_spec in E. exfalso. exact (Qclt_not_le _ _ H E).
Qed.

Lemma rational_eqb_refl a : eqb a a = true.
Proof. apply rational_eqb_spec. reflexivity. Qed.

Lemma rational_eqb_false a b : eqb a b = false <-> a <> b.
Proof.
  split; intro H.
  - intro E. apply rational_eqb_spec in E. congruence.
  - destruct (eqb a b) eqn:E; [|reflexivity].
    apply rational_eqb_spec in E. contradiction.
Qed.


(** The clamps of [InvalidateCache]. *)
Lemma qMax_zero_nonneg s : (0 <= qMax (of_int 0) s)%Qc.
Proof.
  unfold qMax. destruct (ltb (of_int 0) s) eqn:E.
  - apply rational_ltb_spec in E. apply Qclt_le_weak. exact E.
  - apply Qcle_refl.
Qed.

Lemma qMin_le_l a b : (qMin a b <= a)%Qc.
Proof.
  unfold qMin. destruct (ltb a b) eqn:E; [apply Qcle_refl|].
  apply rational_ltb_false in E. exact E.
Qed.

Lemma qMin_le_r a b : (qMin a b <= b)%Qc.
Proof.
  unfold qMin. destruct (ltb a b) eqn:E; [|apply Qcle_refl].
  apply rational_ltb_spec in E. apply Qclt_le_weak. exact E.
Qed.

(** Arithmetic on [Qc] seen in [Q], where [ring], [field] and [nra] work. *)
Lemma this_plus (a b : Qc) : this (a + b)%Qc == this a + this b.
Proof. exact (Qred_correct (this a + this b)). Qed.
Lemma this_mult (a b : Qc) : this (a * b)%Qc == this a * this b.
Proof. exact (Qred_correct (this a * this b)). Qed.
Lemma this_opp (a : Qc) : this (- a)%Qc == - this a.
Proof. exact (Qred_correct (- this a)). Qed.
Lemma this_minus (a b : Qc) : this (a - b)%Qc == this a - this b.
Proof. unfold Qcminus. rewrite this_plus, this_opp. reflexivity. Qed.
Lemma this_of_int (n : Z) : this (of_int n) == inject_Z n.
Proof. exact (Qred_correct (inject_Z n)). Qed.
Lemma this_make (n : Z) (d : positive) : this (make n d) == n # d.
Proof. exact (Qred_correct (n # d)). Qed.

Ltac push_this :=
  unfold Qclt, Qcle in *;
  repeat (progress
            rewrite ?this_plus, ?this_minus, ?this_mult, ?this_opp, ?this_of_int,
              ?this_make in *);
  change (this 0%Qc) with 0%Q in *.

(** ** The enumeration of a range *)

(** The scan adds the point and nothing else. *)
Lemma queue_scan_points last diff r q t :
  In t (points (queue_scan last diff r q)) <-> t = r \/ In t (points q).
Proof.
  induction q as [|e rest IH]; simpl.
  - intuition.
  - destruct (ltb diff _); simpl; [intuition|].
    destruct (eqb (range_in e) r) eqn:E; simpl.
    + apply rational_eqb_spec in E. intuition congruence.
    + rewrite IH. intuition.
Qed.

Lemma enqueue_point_points last r q t :
  In t (points (enqueue_point last r q)) <-> t = r \/ In t (points q).
Proof. apply queue_scan_points. Qed.

(** The points the loop visits. *)
Lemma grid_point_0 r tb : grid_point r tb 0 = r.
Proof.
  unfold grid_point. apply Qc_is_canon. push_this. simpl. ring.
Qed.

Lemma grid_point_S r tb k : grid_point r tb (S k) = grid_point (r + tb)%Qc tb k.
Proof.
  unfold grid_point. apply Qc_is_canon. push_this.
  rewrite Nat2Z.inj_succ. unfold Z.succ. rewrite inject_Z_plus. ring.
Qed.

Lemma grid_point_ge r tb k : (0 < tb)%Qc -> (r <= grid_point r tb k)%Qc.
Proof.
  unfold grid_point. intros Htb. push_this.
  assert (0 <= inject_Z (Z.of_nat k)).
  { change 0 with (inject_Z 0). rewrite <- Zle_Qle. lia. }
  nra.
Qed.



(** A point later than every queued point goes to the end of the queue,
    wherever the playhead is: the difference [compare - last_time] of an
    earlier entry never exceeds the distance of the new point. *)
Lemma enqueue_point_behind last r queue :
  Forall (fun e => (range_in e < r)%Qc) queue ->
  enqueue_point last r queue = queue ++ [mkTimeRange r r].
Proof.
  unfold enqueue_point. induction 1 as [|e rest He Hrest IH]; [reflexivity|].
  cbn. rewrite IH.
  assert (Hdiff : ltb (new_point_diff last r) (range_in e - last)%Qc = false).
  { apply rational_ltb_false. unfold new_point_diff, qAbs.
    destruct (ltb (r - last)%Qc 0%Qc) eqn:Hneg.
    - apply rational_ltb_spec in Hneg.
      destruct (leb 0%Qc (r - last)%Qc) eqn:Hpos.
      + apply rational_leb_spec in Hpos. push_this. nra.
      + push_this. change (inject_Z 5) with 5. nra.
    - apply rational_ltb_false in Hneg. push_this. nra. }
  assert (Hne : eqb (range_in e) r = false).
  { apply rational_eqb_false. apply Qclt_not_eq. exact He. }
  rewrite Hdiff, Hne. reflexivity.
Qed.

(** A point that meets an entry with a larger difference goes in front of
    it, whether or not the point is queued further down: this is how a
    point comes to be queued twice. *)
Lemma enqueue_point_in_front last r e rest :
  ltb (new_point_diff last r) (range_in e - last)%Qc = true ->
  enqueue_point last r (e :: rest) = mkTimeRange r r :: e :: rest.
Proof. intros H. unfold enqueue_point. cbn. rewrite H. reflexivity. Qed.

(** So the enumeration of a range behind which nothing is queued, an
    empty queue in particular, leaves the queue in order of time. *)
Lemma invalidate_loop_time_order tb end_ last :
  (0 < tb)%Qc ->
  forall fuel r queue queue',
    Forall (fun e => (range_in e < r)%Qc) queue ->
    invalidate_loop fuel tb end_ last r queue = Some queue' ->
    exists n, points queue' = points queue ++ map (grid_point r tb) (seq 0 n).
Proof.
  intros Htb. induction fuel as [|fuel IH]; intros r queue queue' Hbehind; cbn.
  - destruct (leb r end_); [discriminate|].
    intros H. injection H as <-. exists 0%nat. cbn. rewrite app_nil_r. reflexivity.
  - destruct (leb r end_).
    + rewrite (enqueue_point_behind last r queue Hbehind). intros Hrun.
      apply IH in Hrun.
      * destruct Hrun as [n Hn]. exists (S n). rewrite Hn.
        unfold points. rewrite map_app, <- app_assoc. cbn.
        rewrite grid_point_0, <- seq_shift, map_map.
        f_equal. f_equal. apply map_ext. intros k. symmetry. apply grid_point_S.
      * apply Forall_app. split.
        -- eapply Forall_impl; [|exact Hbehind]. cbn. intros e He. push_this. nra.
        -- constructor; [|constructor]. cbn. push_this. nra.
    + intros H. injection H as <-. exists 0%nat. cbn. rewrite app_nil_r. reflexivity.
Qed.


Section Snap.
Context {G : NodeGraph} {P : Platform} {Derived : Type}.


(** Whatever the rounding of doubles, the start of the loop is on the grid. *)
Lemma true_start_range_index tb s :
  true_start_range tb s = (of_int (snap_index tb s) * tb)%Qc.
Proof.
  unfold true_start_range. fold (snap_index tb s).
  apply Qc_is_canon. push_this.
  unfold numerator. destruct tb as [[n d] Hc]. simpl.
  unfold Qeq. simpl. ring.
Qed.

Lemma true_start_range_aligned tb s : aligned tb (true_start_range tb s).
Proof. exists (snap_index tb s). apply true_start_range_index. Qed.


(** With doubles that keep the sign, the loop never starts below 0. *)
Lemma start_range_quotient_nonneg tb s :
  sign_preserving_doubles -> (0 < tb)%Qc -> (0 <= s)%Qc ->
  0 <= start_range_quotient tb s.
Proof.
  intros [HtoD Hd] Htb Hs. unfold start_range_quotient.
  apply Hd. unfold Qdiv. apply Qmult_le_0_compat.
  - apply Hd. apply Qmult_le_0_compat; [apply HtoD; exact Hs|].
    apply Hd. unfold denominator. unfold Qle. simpl. lia.
  - apply Qinv_le_0_compat. apply Hd.
    unfold numerator. unfold Qclt, Qlt in Htb. simpl in Htb.
    unfold Qle. simpl. lia.
Qed.

Lemma true_start_range_nonneg tb s :
  sign_preserving_doubles -> (0 < tb)%Qc -> (0 <= s)%Qc -> (0 <= true_start_range tb s)%Qc.
Proof.
  intros Hsign Htb Hs. rewrite true_start_range_index.
  assert (H0 : (0 <= snap_index tb s)%Z).
  { unfold snap_index. change 0%Z with (Qfloor 0). apply Qfloor_resp_le.
    apply start_range_quotient_nonneg; assumption. }
  rewrite Zle_Qle in H0. push_this. change (inject_Z 0) with 0 in H0. nra.
Qed.

(** The points enumerated from a grid point are the grid points from it. *)
Lemma grid_from_aligned tb first t hi :
  (0 < tb)%Qc -> aligned tb first ->
  ((exists k, t = grid_point first tb k /\ (t <= hi)%Qc) <->
   (aligned tb t /\ (first <= t)%Qc /\ (t <= hi)%Qc)).
Proof.
  intros Htb [j Hj]. split.
  - intros [k [-> Hk]]. split; [|split].
    + exists (j + Z.of_nat k)%Z. subst first. unfold grid_point.
      apply Qc_is_canon. push_this. rewrite inject_Z_plus. ring.
    + apply grid_point_ge. exact Htb.
    + exact Hk.
  - intros [[m Hm] [Hlo Hhi]]. subst first t.
    assert (Hjm : (j <= m)%Z).
    { push_this. rewrite Zle_Qle. nra. }
    exists (Z.to_nat (m - j)). split; [|exact Hhi].
    unfold grid_point. apply Qc_is_canon. push_this.
    rewrite Z2Nat.id by lia. unfold Zminus. rewrite inject_Z_plus, inject_Z_opp. ring.
Qed.

End Snap.


Lemma string_append_assoc (a b c : string) : ((a ++ b) ++ c = a ++ b ++ c)%string.
Proof. induction a as [|ch a IH]; cbn; [reflexivity|]. rewrite IH. reflexivity. Qed.

(** ** Properties of the backend *)

Section Facts.
Context {G : NodeGraph} {P : Platform} {Derived : Type} {Sub : Subclass Derived}.
Implicit Types st : State Derived.

(** C9.  [Invalidate] on a backend whose render parameters are not valid
    returns at once and leaves the whole object as it was: the cache queue,
    the frame cache and the queued value update included. *)
Theorem InvalidateCache_invalid_parameters fuel start_range end_range st :
  is_valid (params_ st) = false ->
  InvalidateCache fuel start_range end_range st = Ok st.
Proof.
  intros Hinvalid. unfold InvalidateCache. rewrite Hinvalid. reflexivity.
Qed.

(** C10.  After [RequestFrame(t)] ([GetCachedFrame]) the last requested
    time is [t], on every path through the function, the three early
    returns included. *)
Theorem GetCachedFrame_records_time (disk : Disk) time st :
  last_time_requested_ (snd (GetCachedFrame disk time st)) = time.
Proof.
  unfold GetCachedFrame, viewer_node, cache_id. cbn.
  destruct (copied_viewer_node_ st); [|reflexivity].
  destruct (isEmpty (cache_id_ st)); [reflexivity|].
  destruct (is_valid (params_ st)); [|reflexivity]. cbn.
  destruct (isEmpty (TimeToHash time (frame_cache_ st))); [reflexivity|]. cbn.
  destruct (QFileInfo_exists disk _); [|reflexivity].
  destruct (ImageInput_open disk _); [|reflexivity].
  destruct (read_image _ _ _). reflexivity.
Qed.


(** The cache ID after [SetParameters], in closed form. *)
Lemma cache_id_after_SetParameters params st :
  cache_id (SetParameters params st) =
    if is_valid params && negb (isEmpty (cache_name_ st)) && negb (Z.eqb (cache_time_ st) 0)
    then cache_id_of (width params) (height params) (format params) (divider params)
           (cache_name_ st) (cache_time_ st)
    else EmptyString.
Proof.
  unfold SetParameters, RegenerateCacheID, GenerateCacheIDInternal, cache_id, cache_id_of.
  cbn.
  destruct (isEmpty (cache_name_ st)); cbn; [rewrite andb_false_r; reflexivity|].
  destruct (Z.eqb (cache_time_ st) 0); cbn; [rewrite andb_false_r; reflexivity|].
  destruct (is_valid params); cbn; [|reflexivity].
  rewrite !string_append_assoc. reflexivity.
Qed.

(** The frame cache is rebound to the ID in the same step. *)
Lemma RegenerateCacheID_frame_cache st :
  frame_cache_id (frame_cache_ (RegenerateCacheID st)) = cache_id_ (RegenerateCacheID st).
Proof.
  unfold RegenerateCacheID, GenerateCacheIDInternal.
  destruct (isEmpty (cache_name_ st)); [reflexivity|].
  destruct (Z.eqb (cache_time_ st) 0); [reflexivity|].
  destruct (is_valid (params_ st)); reflexivity.
Qed.

(** C6.  After every change of the render parameters the cache ID is
    recomputed from the new values: it is the function [cache_id_of] of
    width, height, pixel format, divider, cache name and creation time, and
    it is empty when the parameters are not valid, the name is empty or the
    creation time is 0.  Hence two backends whose parameters agree on the
    four values and on being valid, and whose name and creation time agree,
    have the same ID. *)
Theorem cache_id_of_parameters params st :
  cache_id (SetParameters params st) =
    (if is_valid params && negb (isEmpty (cache_name_ st))
        && negb (Z.eqb (cache_time_ st) 0)
     then cache_id_of (width params) (height params) (format params) (divider params)
            (cache_name_ st) (cache_time_ st)
     else EmptyString) /\
  forall params' (st' : State Derived),
    width params' = width params -> height params' = height params ->
    format params' = format params -> divider params' = divider params ->
    is_valid params' = is_valid params ->
    cache_name_ st' = cache_name_ st -> cache_time_ st' = cache_time_ st ->
    cache_id (SetParameters params' st') = cache_id (SetParameters params st).
Proof.
  split; [apply cache_id_after_SetParameters|].
  intros params' st' Hw Hh Hf Hd Hv Hn Ht.
  rewrite !cache_id_after_SetParameters, Hw, Hh, Hf, Hd, Hv, Hn, Ht. reflexivity.
Qed.

(** [Compile] and [Decompile] leave the queue alone, and a compile request
    is cleared by the compilation it causes. *)
Lemma Decompile_recompile_queued st :
  recompile_queued_ (Decompile st) = recompile_queued_ st.
Proof. unfold Decompile. destruct (compiled_ st); reflexivity. Qed.

Lemma Decompile_cache_queue st : cache_queue_ (Decompile st) = cache_queue_ st.
Proof. unfold Decompile. destruct (compiled_ st); reflexivity. Qed.

Lemma Compile_copy_result st ok st' :
  Compile_copy st = Ok (ok, st') ->
  compiled_ st' = ok /\ recompile_queued_ st' = recompile_queued_ st /\
  cache_queue_ st' = cache_queue_ st.
Proof.
  unfold Compile_copy. destruct (viewer_node_ st); [|discriminate].
  destruct (CompileInternal _) as [c hook]. cbn.
  destruct c; cbn; intros H; injection H as <- <-; repeat split.
Qed.

Lemma Compile_result st ok st' :
  Compile st = Ok (ok, st') ->
  compiled_ st' = ok /\ recompile_queued_ st' = false /\
  cache_queue_ st' = cache_queue_ st.
Proof.
  unfold Compile. destruct (recompile_queued_ st) eqn:Hq.
  - intros H. apply Compile_copy_result in H. cbn in H.
    rewrite Decompile_cache_queue in H. exact H.
  - destruct (compiled_ st) eqn:Hc.
    + intros H. injection H as <- <-. auto.
    + intros H. apply Compile_copy_result in H. rewrite Hq in H. exact H.
Qed.

Lemma Compile_compiled st :
  compiled_ st = true -> recompile_queued_ st = false -> Compile st = Ok (true, st).
Proof. intros Hc Hq. unfold Compile. rewrite Hq, Hc. reflexivity. Qed.

(** [Init], [UpdateNodeInputs] and [GenerateData] leave the queue alone. *)
Lemma Init_scheduler st ok st1 :
  Init st = Ok (ok, st1) ->
  cache_queue_ st1 = cache_queue_ st /\ caching_ st1 = caching_ st /\
  viewer_node_ st1 = viewer_node_ st.
Proof.
  unfold Init. destruct (started_ st).
  - intros H. injection H as <- <-. repeat split.
  - destruct (InitInternal _) as [c hook]. cbn. unfold InitWorkers. cbn.
    destruct (InitWorkers_from _ _ _); cbn; try discriminate.
    destruct c; cbn; intros H; injection H as <- <-; repeat split.
Qed.

Lemma UpdateNodeInputs_scheduler st st' :
  UpdateNodeInputs st = Ok st' ->
  cache_queue_ st' = cache_queue_ st /\ processors_ st' = processors_ st.
Proof.
  unfold UpdateNodeInputs. destruct (value_update_queued_ st).
  - destruct (refresh_nodes _ _ _); cbn; try discriminate.
    intros H. injection H as <-. split; reflexivity.
  - intros H. injection H as <-. split; reflexivity.
Qed.

Lemma GenerateData_cache_queue range st c st' :
  GenerateData range st = Ok (c, st') -> cache_queue_ st' = cache_queue_ st.
Proof.
  unfold GenerateData. destruct (Compile st) as [[ok st1]| |] eqn:Hc; cbn; try discriminate.
  apply Compile_result in Hc. destruct Hc as [_ [_ Hq]].
  destruct ok; cbn.
  - destruct (dependent_output st1); cbn; try discriminate.
    destruct (hand_to_worker _ _); intros H; injection H as <- <-; exact Hq.
  - intros H. injection H as <- <-. exact Hq.
Qed.

(** [CacheNext] takes the head off the queue or leaves the queue alone. *)
Lemma CacheNext_queue_step st st' :
  CacheNext st = Ok st' ->
  cache_queue_ st' = cache_queue_ st \/
  (exists head, cache_queue_ st = head :: cache_queue_ st' /\
                caching_ st = false /\ viewer_node_ st <> None).
Proof.
  unfold CacheNext. destruct (Init st) as [[ok st1]| |] eqn:HInit; cbn; try discriminate.
  apply Init_scheduler in HInit. destruct HInit as [Hq [Hc Hv]].
  destruct ok; cbn; [|intros H; injection H as <-; left; exact Hq].
  destruct (cache_queue_ st1) as [|head rest] eqn:Hq1;
    [intros H; injection H as <-; left; congruence|].
  unfold ViewerIsConnected. rewrite Hv, Hc.
  destruct (viewer_node_ st) eqn:Hvn; cbn; [|intros H; injection H as <-; left; congruence].
  destruct (caching_ st) eqn:Hcn; cbn; [intros H; injection H as <-; left; congruence|].
  destruct (UpdateNodeInputs st1) as [st2| |] eqn:Hu; cbn; try discriminate.
  destruct (GenerateData head _) as [[c st3]| |] eqn:Hg; cbn; try discriminate.
  apply GenerateData_cache_queue in Hg. cbn in Hg.
  intros H. injection H as <-. right. exists head. cbn. rewrite Hg, <- Hq.
  repeat split. discriminate.
Qed.


(** [RegenerateCacheID] writes the cache ID and rebinds the frame cache,
    nothing else. *)
Lemma RegenerateCacheID_changes st :
  exists id,
    RegenerateCacheID st = set_frame_cache_ (SetCacheID id (frame_cache_ st)) (set_cache_id_ id st).
Proof.
  unfold RegenerateCacheID, GenerateCacheIDInternal, CacheIDChangedEvent.
  destruct (isEmpty (cache_name_ st)); [exists EmptyString; reflexivity|].
  destruct (Z.eqb (cache_time_ st) 0); [exists EmptyString; reflexivity|].
  destruct (is_valid (params_ st)); cbn; eexists; reflexivity.
Qed.

(** The loop of [UpdateNodeInputs] reads node [i] of the copied graph for
    every node [i] of the source list. *)
Lemma refresh_nodes_undefined range srcs dsts :
  refresh_nodes range srcs dsts = Undefined <-> (List.length dsts < List.length srcs)%nat.
Proof.
  revert dsts. induction srcs as [|src srcs IH]; intros dsts; cbn [refresh_nodes List.length].
  - split; [intros H; discriminate H|lia].
  - destruct dsts as [|dst dsts]; cbn [List.length].
    + split; [lia|reflexivity].
    + specialize (IH dsts). destruct (refresh_nodes range srcs dsts); cbn [bind].
      * split; [intros H; discriminate H|]. intros H.
        assert (X : @Ok (list Node) a = Undefined) by (apply IH; lia). discriminate X.
      * split; [|reflexivity]. intros _.
        assert (List.length dsts < List.length srcs)%nat by (apply IH; reflexivity). lia.
      * split; [intros H; discriminate H|]. intros H.
        assert (X : @OutOfFuel (list Node) = Undefined) by (apply IH; lia). discriminate X.
Qed.

Lemma refresh_nodes_ok range srcs dsts dsts' :
  refresh_nodes range srcs dsts = Ok dsts' ->
  List.length dsts' = List.length dsts /\
  skipn (List.length srcs) dsts' = skipn (List.length srcs) dsts.
Proof.
  revert dsts dsts'. induction srcs as [|src srcs IH]; intros dsts dsts';
    cbn [refresh_nodes List.length].
  - intros H. injection H as <-. split; reflexivity.
  - destruct dsts as [|dst dsts]; [discriminate|].
    destruct (refresh_nodes range srcs dsts) as [rest| |] eqn:E; cbn [bind]; try discriminate.
    intros H. injection H as <-. destruct (IH _ _ E) as [Hl Hs].
    split; [cbn; congruence|exact Hs].
Qed.

(** A copied graph that is not shorter than the source list is refreshed
    node by node. *)
Lemma refresh_nodes_returns range srcs dsts :
  (List.length srcs <= List.length dsts)%nat ->
  exists dsts', refresh_nodes range srcs dsts = Ok dsts'.
Proof.
  revert dsts. induction srcs as [|src srcs IH]; intros dsts Hlen;
    cbn [refresh_nodes List.length] in *.
  - exists dsts. reflexivity.
  - destruct dsts as [|dst dsts]; cbn [List.length] in Hlen; [lia|].
    destruct (IH dsts) as [rest Hrest]; [lia|]. rewrite Hrest. cbn [bind].
    eexists. reflexivity.
Qed.

Lemma refresh_nodes_nth range srcs dsts dsts' :
  refresh_nodes range srcs dsts = Ok dsts' ->
  forall i dst, nth_error dsts i = Some dst ->
    nth_error dsts' i =
      Some (match nth_error srcs i with
            | Some src => drop_cached_values_overlapping range (CopyInputs src dst)
            | None => dst
            end).
Proof.
  revert dsts dsts'. induction srcs as [|src srcs IH]; intros dsts dsts';
    cbn [refresh_nodes].
  - intros H. injection H as <-. intros i dst Hi. rewrite Hi.
    destruct i; reflexivity.
  - destruct dsts as [|d dsts]; [discriminate|].
    destruct (refresh_nodes range srcs dsts) as [rest| |] eqn:E; cbn [bind]; try discriminate.
    intros H. injection H as <-. intros [|i] dst Hi; cbn in *.
    + injection Hi as <-. reflexivity.
    + apply (IH _ _ E). exact Hi.
Qed.

(** What keeps the snapshot. *)
Lemma snapshot_kept_refl st : snapshot_kept st st.
Proof. repeat split. Qed.

Lemma snapshot_kept_trans st st' st'' :
  snapshot_kept st st' -> snapshot_kept st' st'' -> snapshot_kept st st''.
Proof.
  unfold snapshot_kept. intros [A [B [C [D E]]]] [A' [B' [C' [D' E']]]].
  repeat split; congruence.
Qed.

Lemma Init_snapshot st ok st' : Init st = Ok (ok, st') -> snapshot_kept st st'.
Proof.
  unfold Init, snapshot_kept. destruct (started_ st).
  - intros H. injection H as <- <-. repeat split.
  - destruct (InitInternal _) as [c hook]. cbn. unfold InitWorkers. cbn.
    destruct (InitWorkers_from _ _ _); cbn; try discriminate.
    destruct c; cbn; intros H; injection H as <- <-; repeat split.
Qed.

Lemma UpdateNodeInputs_snapshot st st' :
  UpdateNodeInputs st = Ok st' -> snapshot_kept st st'.
Proof.
  unfold UpdateNodeInputs, snapshot_kept. destruct (value_update_queued_ st).
  - destruct (refresh_nodes _ _ _) as [nodes| |] eqn:E; cbn; try discriminate.
    intros H. injection H as <-. cbn. apply refresh_nodes_ok in E.
    repeat split. apply E.
  - intros H. injection H as <-. repeat split.
Qed.

Lemma GenerateData_snapshot range st c st' :
  compiled_ st = true -> recompile_queued_ st = false ->
  GenerateData range st = Ok (c, st') -> snapshot_kept st st'.
Proof.
  intros Hc Hq. unfold GenerateData, snapshot_kept.
  rewrite (Compile_compiled st Hc Hq). cbn.
  destruct (dependent_output st); cbn; try discriminate.
  destruct (hand_to_worker _ _); intros H; injection H as <- <-; repeat split.
Qed.

Lemma CacheNext_snapshot st st' :
  compiled_ st = true -> recompile_queued_ st = false ->
  CacheNext st = Ok st' -> snapshot_kept st st'.
Proof.
  intros Hc Hq. unfold CacheNext.
  destruct (Init st) as [[ok st1]| |] eqn:HInit; cbn; try discriminate.
  apply Init_snapshot in HInit.
  destruct ok; cbn; [|intros H; injection H as <-; exact HInit].
  destruct (cache_queue_ st1) as [|head rest]; [intros H; injection H as <-; exact HInit|].
  destruct (negb (ViewerIsConnected st1) || caching_ st1);
    [intros H; injection H as <-; exact HInit|].
  destruct (UpdateNodeInputs st1) as [st2| |] eqn:Hu; cbn; try discriminate.
  apply UpdateNodeInputs_snapshot in Hu.
  pose proof (snapshot_kept_trans _ _ _ HInit Hu) as H2.
  destruct (GenerateData head _) as [[c st3]| |] eqn:Hg; cbn; try discriminate.
  apply GenerateData_snapshot in Hg.
  - intros H. injection H as <-. apply (snapshot_kept_trans _ _ _ H2).
    unfold snapshot_kept in *. cbn in *. exact Hg.
  - cbn. destruct H2 as [A _]. congruence.
  - cbn. destruct H2 as [_ [B _]]. congruence.
Qed.

Lemma RegenerateCacheID_snapshot st : snapshot_kept st (RegenerateCacheID st).
Proof.
  destruct (RegenerateCacheID_changes st) as [id Hid]. rewrite Hid. repeat split.
Qed.

Lemma InvalidateCache_snapshot fuel start_range end_range st st' :
  compiled_ st = true -> recompile_queued_ st = false ->
  InvalidateCache fuel start_range end_range st = Ok st' -> snapshot_kept st st'.
Proof.
  intros Hc Hq. unfold InvalidateCache.
  destruct (negb (is_valid (params_ st))); [intros H; injection H as <-; repeat split|].
  destruct (negb (start_range_fits _ _)); [discriminate|].
  destruct (enqueue_range _ _ _ _) as [queue|]; [|discriminate].
  intros H. apply CacheNext_snapshot in H; [exact H|exact Hc|exact Hq].
Qed.

Lemma perform_snapshot c st st' :
  compiled_ st = true -> recompile_queued_ st = false ->
  perform c st = Ok st' -> snapshot_kept st st'.
Proof.
  intros Hc Hq. destruct c; cbn [perform].
  - destruct (Init st) as [[ok st1]| |] eqn:E; cbn; try discriminate.
    intros H. injection H as <-. apply (Init_snapshot _ _ _ E).
  - intros H. injection H as <-. unfold Close.
    destruct (negb (started_ st)); repeat split.
  - rewrite (Compile_compiled st Hc Hq). cbn. intros H. injection H as <-. repeat split.
  - intros H. injection H as <-. repeat split.
  - apply CacheNext_snapshot; assumption.
  - intros H. injection H as <-. repeat split.
  - intros H. injection H as <-. unfold SetCacheName.
    apply (snapshot_kept_trans _ (set_cache_time_ now (set_cache_name_ name st)));
      [repeat split|apply RegenerateCacheID_snapshot].
  - intros H. injection H as <-. unfold SetParameters.
    match goal with
    | |- snapshot_kept _ (?f (RegenerateCacheID ?s)) =>
        apply (snapshot_kept_trans _ (RegenerateCacheID s));
          [apply (snapshot_kept_trans _ s); [repeat split|apply RegenerateCacheID_snapshot]
          |repeat split]
    | |- snapshot_kept _ (RegenerateCacheID ?s) =>
        apply (snapshot_kept_trans _ s); [repeat split|apply RegenerateCacheID_snapshot]
    end.
  - apply InvalidateCache_snapshot; assumption.
  - intros H. injection H as <-. unfold GetCachedFrame, viewer_node, cache_id. cbn.
    destruct (copied_viewer_node_ st); [|repeat split].
    destruct (isEmpty (cache_id_ st)); [repeat split|].
    destruct (is_valid (params_ st)); [|repeat split]. cbn.
    destruct (isEmpty (TimeToHash time (frame_cache_ st))); [repeat split|]. cbn.
    destruct (QFileInfo_exists disk _); [|repeat split].
    destruct (ImageInput_open disk _); [|repeat split].
    destruct (read_image _ _ _). repeat split.
Qed.

(** C7, as amended.  Once [Compile()] has returned true, whatever is
    called on the backend afterwards, in any number and order, other than
    [QueueRecompile], [Decompile] and [SetViewerNode]: a call of
    [Compile()] then returns true and leaves the whole object as it finds
    it, so nothing is copied; and the source list, the copied viewer and
    the number of copied nodes are still those the first compilation has
    left. *)
Theorem Compile_stays_compiled st st1 calls st2 :
  Compile st = Ok (true, st1) ->
  perform_all calls st1 = Ok st2 ->
  Compile st2 = Ok (true, st2) /\
  source_node_list_ st2 = source_node_list_ st1 /\
  copied_viewer_node_ st2 = copied_viewer_node_ st1 /\
  List.length (copied_graph_ st2) = List.length (copied_graph_ st1).
Proof.
  intros H. apply Compile_result in H. destruct H as [Hc [Hq _]].
  revert st1 Hc Hq. induction calls as [|c calls IH]; intros st1 Hc Hq; cbn [perform_all].
  - intros E. injection E as <-. split; [apply Compile_compiled; assumption|].
    repeat split.
  - destruct (perform c st1) as [st'| |] eqn:E; cbn [bind]; try discriminate.
    apply (perform_snapshot c st1 st' Hc Hq) in E.
    destruct E as [A [B [C [D F]]]]. intros Hrun.
    destruct (IH st') as [R1 [R2 [R3 R4]]]; [congruence|congruence|exact Hrun|].
    split; [exact R1|]. repeat split; congruence.
Qed.

(** The loop over the pool picks the worker of the spec. *)
Lemma hand_to_worker_chosen dep ws :
  hand_to_worker dep ws = option_map (fun i => give i (Render dep) ws) (chosen_worker ws).
Proof.
  induction ws as [|w rest IH]; [reflexivity|].
  unfold chosen_worker. cbn. destruct (IsAvailable w); cbn; [reflexivity|].
  destruct rest as [|w' rest']; [reflexivity|].
  rewrite IH. unfold chosen_worker.
  destruct (first_idle (w' :: rest')); reflexivity.
Qed.

Lemma Init_started st : started_ st = true -> Init st = Ok (true, st).
Proof. intros H. unfold Init. rewrite H. reflexivity. Qed.

(** C8, as amended.  [CacheNext] calls [Init()] first, which starts the
    backend when it was not started and changes nothing when it was.  If
    [Init()] fails, the queue is empty, no viewer is attached or a dispatch
    is in flight, nothing else changes.  Otherwise, when a value update is
    queued, every copied node that has a node of the source list at its
    index takes the input values of that node and loses its cached values
    that overlap the queued range, the other copied nodes stay, and no
    update is queued any more; when none is queued the copied graph stays.
    The queued range is one range, the one of the last [QueueValueUpdate]:
    a later one replaces an earlier one.  Then exactly the head leaves the
    queue and [Compile()] runs: if the graph compiles, the head goes to the
    first idle worker, or to the last worker when none is idle, and a
    dispatch is in flight (with an empty pool nobody gets it and none is in
    flight); if the graph does not compile, no worker gets the head and no
    dispatch is in flight. *)
Theorem CacheNext_dispatch st ok st1 :
  Init st = Ok (ok, st1) ->
  (started_ st = true -> ok = true /\ st1 = st) /\
  (ok = false \/ cache_queue_ st1 = [] \/ viewer_node_ st1 = None \/ caching_ st1 = true ->
   CacheNext st = Ok st1) /\
  (forall range range' (s : State Derived),
      QueueValueUpdate range' (QueueValueUpdate range s) = QueueValueUpdate range' s) /\
  (forall head rest,
      ok = true -> cache_queue_ st1 = head :: rest ->
      viewer_node_ st1 <> None -> caching_ st1 = false ->
      (value_update_queued_ st1 = true ->
       (List.length (source_node_list_ st1) <= List.length (copied_graph_ st1))%nat) ->
      exists st2,
        UpdateNodeInputs st1 = Ok st2 /\
        st2 = set_value_update_queued_ false (set_copied_graph_ (copied_graph_ st2) st1) /\
        List.length (copied_graph_ st2) = List.length (copied_graph_ st1) /\
        (forall i dst, nth_error (copied_graph_ st1) i = Some dst ->
           nth_error (copied_graph_ st2) i =
             Some (if value_update_queued_ st1 then
                     match nth_error (source_node_list_ st1) i with
                     | Some src =>
                         drop_cached_values_overlapping (value_update_range_ st1)
                           (CopyInputs src dst)
                     | None => dst
                     end
                   else dst)) /\
        forall compiled st3,
          Compile (set_cache_queue_ rest st2) = Ok (compiled, st3) ->
          cache_queue_ st3 = rest /\
          if compiled then
            forall out, dependent_output st3 = Ok out ->
              let dep := mkDependency out (range_in head) (range_out head) in
              match chosen_worker (processors_ st3) with
              | Some i =>
                  CacheNext st =
                    Ok (set_caching_ true
                          (set_processors_ (give i (Render dep) (processors_ st3)) st3))
              | None => CacheNext st = Ok (set_caching_ false st3)
              end
          else CacheNext st = Ok (set_caching_ false st3)).
Proof.
  intros HInit. split.
  { intros Hs. rewrite (Init_started st Hs) in HInit.
    injection HInit as <- <-. split; reflexivity. }
  unfold CacheNext. rewrite HInit. cbn. split; [|split].
  - intros [->|[Hq|[Hv|Hc]]]; [reflexivity| | |].
    + destruct ok; [|reflexivity]. cbn. rewrite Hq. reflexivity.
    + destruct ok; [|reflexivity]. cbn. destruct (cache_queue_ st1); [reflexivity|].
      unfold ViewerIsConnected. rewrite Hv. reflexivity.
    + destruct ok; [|reflexivity]. cbn. destruct (cache_queue_ st1); [reflexivity|].
      rewrite Hc, orb_true_r. reflexivity.
  - intros range range' s. reflexivity.
  - intros head rest -> Hq Hv Hc Hlen. cbn.
    rewrite Hq. unfold ViewerIsConnected.
    destruct (viewer_node_ st1); [|congruence]. rewrite Hc. cbn.
    assert (Hupdate : exists st2,
               UpdateNodeInputs st1 = Ok st2 /\
               st2 = set_value_update_queued_ false
                       (set_copied_graph_ (copied_graph_ st2) st1) /\
               List.length (copied_graph_ st2) = List.length (copied_graph_ st1) /\
               (forall i dst, nth_error (copied_graph_ st1) i = Some dst ->
                  nth_error (copied_graph_ st2) i =
                    Some (if value_update_queued_ st1 then
                            match nth_error (source_node_list_ st1) i with
                            | Some src =>
                                drop_cached_values_overlapping (value_update_range_ st1)
                                  (CopyInputs src dst)
                            | None => dst
                            end
                          else dst))).
    { unfold UpdateNodeInputs. destruct (value_update_queued_ st1) eqn:Hvq.
      - destruct (refresh_nodes_returns (value_update_range_ st1) (source_node_list_ st1)
                    (copied_graph_ st1) (Hlen eq_refl)) as [nodes Hnodes].
        rewrite Hnodes. cbn [bind]. eexists. split; [reflexivity|]. cbn.
        split; [reflexivity|]. split; [apply (refresh_nodes_ok _ _ _ _ Hnodes)|].
        apply (refresh_nodes_nth _ _ _ _ Hnodes).
      - exists st1. split; [reflexivity|].
        split; [destruct st1; cbn in *; rewrite Hvq; reflexivity|]. split; [reflexivity|].
        intros i dst Hi. exact Hi. }
    destruct Hupdate as [st2 [Hrun Hst2]]. exists st2. split; [exact Hrun|].
    destruct Hst2 as [Heq [Hl Hn]]. split; [exact Heq|]. split; [exact Hl|].
    split; [exact Hn|].
    intros compiled st3 Hcompile. rewrite Hrun. cbn.
    unfold GenerateData. rewrite Hcompile. cbn.
    split; [apply Compile_result in Hcompile; apply Hcompile|].
    destruct compiled; cbn; [|reflexivity].
    intros out Hout. rewrite Hout. cbn. rewrite hand_to_worker_chosen.
    destruct (chosen_worker (processors_ st3)); reflexivity.
Qed.

(** A failed [Init] leaves the threads it has started in place, whatever
    the class below: [Close] returns at once on a backend that is not
    started. *)
Lemma InitWorkers_threads st st' :
  InitWorkers st = Ok st' -> threads_ st' = threads_ st /\ started_ st' = started_ st.
Proof.
  unfold InitWorkers.
  destruct (InitWorkers_from 0 (List.length (threads_ st)) (processors_ st)); cbn;
    try discriminate.
  intros H. injection H as <-. split; reflexivity.
Qed.

Lemma Init_failure_keeps_threads st st' :
  started_ st = false ->
  Init st = Ok (false, st') ->
  started_ st' = false /\
  threads_ st' = repeat (mkThread true LowPriority) idealThreadCount.
Proof.
  intros Hs. unfold Init. rewrite Hs.
  destruct (InitInternal _) as [ok hook]. cbn.
  destruct (InitWorkers _) as [st1| |] eqn:Hw; cbn; try discriminate.
  apply InitWorkers_threads in Hw. cbn in Hw. destruct Hw as [Ht Hst].
  rewrite Hst. destruct ok; cbn.
  - intros H. injection H as H _. rewrite Hst in H. discriminate.
  - unfold Close. rewrite Hst. cbn. rewrite Hst.
    intros H. injection H as <-. split; assumption.
Qed.

End Facts.

(** ** The scenarios *)

(** C1.  The playhead scenario of the spec, run on the code.  The queue
    after [Invalidate(0, 10)] holds the 241 frame times in ascending order
    of time, 0 s first; the time 0 s is the one handed to a worker by the
    call, and 2 s is still waiting, although the distance of 2 s to the
    playhead (0) is below the weighted distance of 0 s (10).  So a point
    with the smaller distance is dequeued later, and the queue is not in
    ascending order of distance. *)
Theorem playhead_scenario_order :
  option_map queue_times PlayheadScenario.enqueued
    = Some (map (fun k => Qred (Z.of_nat k # 24)) (seq 0 241)) /\
  (weighted_distance (of_int 2) (of_int 2) < weighted_distance (of_int 2) (of_int 0))%Qc /\
  match PlayheadScenario.invalidated with
  | Ok st =>
      map call_time (calls_received (processors_ st)) = [0 # 1] /\
      In (2 # 1) (queue_times (cache_queue_ st))
  | _ => False
  end.
Proof.
  split; [vm_compute; reflexivity|].
  split; [vm_compute; reflexivity|].
  vm_compute. split; [reflexivity|].
  do 47 right. left. reflexivity.
Qed.

(** C2.  Overlapping invalidations, run on the code.  After the ranges
    [1, 3] and [0, 3] with the playhead at 2 s the queue holds 2, 3, 0, 1
    (1 s was dispatched and re-queued); after the playhead has moved to 0 s
    and [0, 3] is invalidated again, the queue holds 0, 1, 2, 3, 0, 1: the
    points 0 s and 1 s of the overlap are queued twice. *)
Theorem overlap_scenario_duplicates :
  match OverlapScenario.run with
  | Ok st => queue_times (cache_queue_ st) = [2 # 1; 3 # 1; 0 # 1; 1 # 1]
  | _ => False
  end /\
  match OverlapScenario.rerun with
  | Ok st => queue_times (cache_queue_ st) = [0 # 1; 1 # 1; 2 # 1; 3 # 1; 0 # 1; 1 # 1]
  | _ => False
  end.
Proof. split; vm_compute; reflexivity. Qed.



(** C7 as stated fails.  [Compile()] returns true; another viewer is
    attached, which asks for no recompilation; the next [Compile()] returns
    true and has copied: the source list, empty before the call, is the
    new viewer, and the copied graph is not the one of the first
    compilation. *)
Lemma viewer_change_recompiles :
  Compile (Sub:=Session.subclass) Session.opened = Ok (true, Session.compiled) /\
  recompile_queued_ Session.compiled = false /\
  recompile_queued_ Session.switched = false /\
  Compile (Sub:=Session.subclass) Session.switched = Ok (true, Session.recompiled) /\
  source_node_list_ Session.switched = [] /\
  source_node_list_ Session.recompiled = [1%nat] /\
  copied_graph_ Session.recompiled <> copied_graph_ Session.compiled.
Proof. vm_compute. repeat split. discriminate. Qed.

(** C4.  A setup that fails, run on the code.  [Init()] returns false and
    the backend is not initialised, the message is the one the failing
    [InitInternal] has set, and the two threads [Init()] has started are
    still in [threads_], running. *)
Theorem setup_failure_keeps_threads :
  match SetupFailure.initialised with
  | Ok (ok, st) =>
      ok = false /\ IsInitiated st = false /\
      GetError st = "Failed to create OpenGL context"%string /\
      threads_ st = [mkThread true LowPriority; mkThread true LowPriority]
  | _ => False
  end.
Proof. vm_compute. repeat split. Qed.

(** C8 as stated fails.  After [Invalidate(0, 1)] the backend of a graph
    that does not compile is initialised, has 1 s at the head of its queue,
    a viewer attached and no dispatch in flight; [CacheNext] there removes
    the head and hands it to no worker. *)
Lemma compile_failure_drops_head :
  match CompileFailure.invalidated with
  | Ok st =>
      IsInitiated st = true /\ queue_times (cache_queue_ st) = [1 # 1] /\
      ViewerIsConnected st = true /\ caching_ st = false
  | _ => False
  end /\
  match CompileFailure.dispatched_again with
  | Ok st =>
      cache_queue_ st = [] /\ calls_received (processors_ st) = [] /\ caching_ st = false
  | _ => False
  end.
Proof. split; vm_compute; repeat split. Qed.

(** ** The theorems at work *)


(** Invalidation before any viewer has brought valid parameters. *)
Lemma InvalidateCache_invalid_parameters_witness :
  OverlapScenario.fresh_invalidated = Ok OverlapScenario.fresh.
Proof.
  exact (InvalidateCache_invalid_parameters (P:=example_platform)
           (Sub:=OverlapScenario.subclass) 10 (of_int 0) (of_int 3)
           OverlapScenario.fresh eq_refl).
Defined.

(** After the first [Compile] of the session: a lookup, an invalidation
    that dispatches, a change of the parameters and another [Compile]. *)
Lemma Compile_stays_compiled_witness :
  exists st2,
    perform_all (P:=example_platform) (Sub:=Session.subclass)
      [CallGetCachedFrame no_files (of_int 2);
       CallInvalidateCache 10 (of_int 0) (of_int 1);
       CallSetParameters (mkParams 8 4 (of_int 1) 3 1 1);
       CallCompile] Session.compiled = Ok st2 /\
    Compile (Sub:=Session.subclass) st2 = Ok (true, st2) /\
    source_node_list_ st2 = source_node_list_ Session.compiled /\
    copied_viewer_node_ st2 = copied_viewer_node_ Session.compiled /\
    List.length (copied_graph_ st2) = List.length (copied_graph_ Session.compiled).
Proof.
  eexists. split; [vm_compute; reflexivity|].
  apply (Compile_stays_compiled (P:=example_platform) (Sub:=Session.subclass)
           Session.opened Session.compiled
           [CallGetCachedFrame no_files (of_int 2);
            CallInvalidateCache 10 (of_int 0) (of_int 1);
            CallSetParameters (mkParams 8 4 (of_int 1) 3 1 1);
            CallCompile]).
  - vm_compute. reflexivity.
  - vm_compute. reflexivity.
Defined.

(** [CacheNext] after [Invalidate(3, 4)] has come in behind the frame in
    flight and that frame has completed: the update that was queued is
    carried out, 1 s leaves the queue for the first worker, which is idle
    again, and 3 s and 4 s wait. *)
Lemma CacheNext_dispatch_witness :
  value_update_queued_ Session.refresh_due = true /\
  exists st,
    CacheNext (P:=example_platform) (Sub:=Session.subclass) Session.refresh_due = Ok st /\
    value_update_queued_ st = false /\
    queue_times (cache_queue_ st) = [3 # 1; 4 # 1] /\
    map call_time (calls_received (processors_ st)) = [0 # 1; 1 # 1] /\
    caching_ st = true.
Proof.
  split; [reflexivity|].
  assert (HInit : Init (P:=example_platform) (Sub:=Session.subclass) Session.refresh_due
                  = Ok (true, Session.refresh_due)) by (vm_compute; reflexivity).
  destruct (proj2 (proj2 (proj2 (CacheNext_dispatch Session.refresh_due true
                                   Session.refresh_due HInit)))
              (mkTimeRange (of_int 1) (of_int 1))
              [mkTimeRange (of_int 3) (of_int 3); mkTimeRange (of_int 4) (of_int 4)])
    as [st2 [Hrun [_ [_ [_ Hdispatch]]]]].
  - reflexivity.
  - vm_compute. reflexivity.
  - vm_compute. discriminate.
  - reflexivity.
  - intros _. apply le_n.
  - vm_compute in Hrun. injection Hrun as <-.
    edestruct Hdispatch as [_ Hgive]; [vm_compute; reflexivity|].
    specialize (Hgive 0%nat eq_refl). cbv zeta in Hgive.
    eexists. split; [exact Hgive|]. vm_compute. repeat split.
Defined.

(** * Further properties of the backend *)

(** ** The life of the backend: [Init], [InitWorkers], [Close] *)

Section Lifecycle.
Context {G : NodeGraph} {P : Platform} {Derived : Type} {Sub : Subclass Derived}.
Implicit Types st : State Derived.

(** X3.  [Close] on a started backend leaves it not started, without
    threads, without workers and with an empty decoder cache, and a second
    [Close] changes nothing. *)
Theorem Close_tears_down st :
  started_ st = true ->
  started_ (Close st) = false /\ threads_ (Close st) = [] /\
  processors_ (Close st) = [] /\ decoder_cache_ (Close st) = [] /\
  Close (Close st) = Close st.
Proof.
  intros Hs. unfold Close. rewrite Hs. cbn. repeat split.
Qed.

(** The loop of [InitWorkers] reads [threads().at(i)] for every worker. *)
Lemma InitWorkers_from_undefined i n ws :
  (i <= n)%nat ->
  (InitWorkers_from i n ws = Undefined <-> (n < i + List.length ws)%nat).
Proof.
  revert i. induction ws as [|w rest IH]; intros i Hi; cbn [InitWorkers_from List.length].
  - split; [intros H0; discriminate H0|lia].
  - destruct (Nat.ltb i n) eqn:E.
    + apply Nat.ltb_lt in E. specialize (IH (S i) E).
      destruct (InitWorkers_from (S i) n rest); cbn [bind].
      * split; [intros H0; discriminate H0|]. intros H.
        assert (X : @Ok (list RenderWorker) a = Undefined) by (apply IH; lia).
        discriminate X.
      * split; [|reflexivity]. intros _.
        assert (n < S i + List.length rest)%nat by (apply IH; reflexivity). lia.
      * split; [intros H0; discriminate H0|]. intros H.
        assert (X : @OutOfFuel (list RenderWorker) = Undefined) by (apply IH; lia).
        discriminate X.
    + apply Nat.ltb_ge in E. split; [lia|reflexivity].
Qed.

Lemma InitWorkers_from_ok i n ws ws' :
  InitWorkers_from i n ws = Ok ws' ->
  List.length ws' = List.length ws /\
  forall k w', nth_error ws' k = Some w' ->
    worker_thread w' = Some (i + k)%nat /\ (i + k < n)%nat /\
    exists w, nth_error ws k = Some w /\ queued_calls w' = queued_calls w /\
              IsAvailable w' = IsAvailable w.
Proof.
  revert i ws'. induction ws as [|w rest IH]; intros i ws'; cbn [InitWorkers_from List.length].
  - intros H. injection H as <-. split; [reflexivity|].
    intros [|k] w' Hk; discriminate.
  - destruct (Nat.ltb i n) eqn:E; [|discriminate].
    apply Nat.ltb_lt in E.
    destruct (InitWorkers_from (S i) n rest) as [rest'| |] eqn:Hrest; cbn [bind];
      try discriminate.
    intros H. injection H as <-.
    destruct (IH _ _ Hrest) as [Hlen Hnth]. split; [cbn; congruence|].
    intros [|k] w' Hk; cbn in Hk.
    + injection Hk as <-. cbn. rewrite Nat.add_0_r. repeat split; try assumption.
      exists w. repeat split.
    + destruct (Hnth k w' Hk) as [Ht [Hlt Hw]].
      rewrite Nat.add_succ_r. repeat split; assumption.
Qed.

(** X2.  [InitWorkers] reads the thread vector out of range exactly when
    there are more workers than threads. *)
Theorem InitWorkers_out_of_range st :
  InitWorkers st = Undefined <->
  (List.length (threads_ st) < List.length (processors_ st))%nat.
Proof.
  unfold InitWorkers.
  pose proof (InitWorkers_from_undefined 0 (List.length (threads_ st)) (processors_ st)
                (Nat.le_0_l _)) as H.
  destruct (InitWorkers_from 0 _ _) eqn:E; cbn.
  - split; [intros H0; discriminate H0|]. intros Hlt. apply H in Hlt. discriminate.
  - split; [|reflexivity]. intros _. apply H. reflexivity.
  - split; [intros H0; discriminate H0|]. intros Hlt. apply H in Hlt. discriminate.
Qed.

(** X1.  After an [Init] that succeeds on a backend that was not started,
    the backend is started, [threads_] holds one running low-priority
    thread per hardware thread, worker [k] of the pool has been moved to
    thread [k], which exists, and a further [Init] returns true and changes
    nothing.  Whether a worker's own [Init()] has succeeded is not looked
    at. *)
Theorem Init_success_pool st st' :
  started_ st = false ->
  Init st = Ok (true, st') ->
  started_ st' = true /\
  threads_ st' = repeat (mkThread true LowPriority) idealThreadCount /\
  (forall k w, nth_error (processors_ st') k = Some w ->
     worker_thread w = Some k /\ (k < idealThreadCount)%nat) /\
  Init st' = Ok (true, st').
Proof.
  intros Hs. unfold Init at 1. rewrite Hs.
  destruct (InitInternal _) as [ok hook]. cbn.
  unfold InitWorkers. cbn.
  rewrite repeat_length.
  destruct (InitWorkers_from 0 idealThreadCount (processors_ hook)) as [ws| |] eqn:Hw;
    cbn; try discriminate.
  destruct ok; cbn.
  - intros H. injection H as <-. cbn.
    split; [reflexivity|]. split; [reflexivity|]. split; [|reflexivity].
    intros k w Hk. destruct (InitWorkers_from_ok _ _ _ _ Hw) as [_ Hnth].
    destruct (Hnth k w Hk) as [Ht [Hlt _]]. cbn in Ht, Hlt. auto.
  - unfold Close. cbn. discriminate.
Qed.

End Lifecycle.

(** ** The snapshot: [Compile], [Decompile], [SetViewerNode],
    [UpdateNodeInputs] *)

Section Snapshot.
Context {G : NodeGraph} {P : Platform} {Derived : Type} {Sub : Subclass Derived}.
Implicit Types st : State Derived.

(** [Decompile] keeps the live viewer. *)
Lemma Decompile_viewer_node st : viewer_node_ (Decompile st) = viewer_node_ st.
Proof. unfold Decompile. destruct (compiled_ st); reflexivity. Qed.

Lemma Compile_copy_lists st ok st' :
  Compile_copy st = Ok (ok, st') ->
  exists v, viewer_node_ st = Some v /\
    source_node_list_ st' = source_node_list_ st ++ v :: GetDependencies v /\
    copied_viewer_node_ st' = Some 0%nat /\ compiled_ st' = ok.
Proof.
  unfold Compile_copy. destruct (viewer_node_ st) as [v|]; [|discriminate].
  destruct (CompileInternal _) as [c hook]. cbn.
  destruct c; cbn; intros H; injection H as <- <-; exists v; repeat split.
Qed.

(** A [Compile] that copies appends the viewer and its dependencies to the
    source list as it finds it. *)
Lemma Compile_copies_sources st ok st' :
  recompile_queued_ st = true \/ compiled_ st = false ->
  Compile st = Ok (ok, st') ->
  exists v, viewer_node_ st = Some v /\
    source_node_list_ st' =
      (if compiled_ st then [] else source_node_list_ st) ++ v :: GetDependencies v /\
    copied_viewer_node_ st' = Some 0%nat /\ compiled_ st' = ok.
Proof.
  intros Hcase. unfold Compile. destruct (recompile_queued_ st) eqn:Hq.
  - intros H. apply Compile_copy_lists in H. destruct H as [v [Hv [Hsrc Hrest]]].
    cbn in Hv, Hsrc. rewrite Decompile_viewer_node in Hv.
    exists v. split; [exact Hv|]. split; [|exact Hrest].
    rewrite Hsrc. unfold Decompile. destruct (compiled_ st); reflexivity.
  - destruct Hcase as [Hcase|Hc]; [discriminate|]. rewrite Hc.
    intros H. apply Compile_copy_lists in H. exact H.
Qed.

(** X4.  A [Compile] that does not take the early return needs a viewer
    and, whether it succeeds or not, leaves the source list as the viewer
    followed by its dependencies, behind what the list held before unless
    the backend was compiled (then [Decompile] has emptied it); the copied
    viewer is node 0 of the copied graph. *)
Theorem Compile_source_nodes st ok st' :
  recompile_queued_ st = true \/ compiled_ st = false ->
  Compile st = Ok (ok, st') ->
  exists v, viewer_node_ st = Some v /\
    source_node_list_ st' =
      (if compiled_ st then [] else source_node_list_ st) ++ v :: GetDependencies v /\
    copied_viewer_node_ st' = Some 0%nat /\ compiled_ st' = ok.
Proof. apply Compile_copies_sources. Qed.

(** X5.  After a [Compile] that returns false the backend is not
    compiled, but the source list is not empty and the copied viewer is
    still set: the [Decompile] at the end of [Compile] returns at once on a
    backend that is not compiled, and so does any later [Decompile]. *)
Theorem Compile_failure_residue st st' :
  Compile st = Ok (false, st') ->
  compiled_ st' = false /\ source_node_list_ st' <> [] /\
  copied_viewer_node_ st' = Some 0%nat /\ Decompile st' = st'.
Proof.
  intros H.
  assert (Hcase : recompile_queued_ st = true \/ compiled_ st = false).
  { unfold Compile in H. destruct (recompile_queued_ st); [auto|].
    destruct (compiled_ st); [discriminate|auto]. }
  destruct (Compile_copies_sources st false st' Hcase H) as [v [_ [Hsrc [Hcv Hc]]]].
  split; [exact Hc|]. split; [|split; [exact Hcv|]].
  - rewrite Hsrc. intros E. apply app_eq_nil in E. destruct E as [_ E]. discriminate.
  - unfold Decompile. rewrite Hc. reflexivity.
Qed.

(** X6.  Without a viewer, [Compile] dereferences the null [viewer_node_]
    unless it takes the early return. *)
Theorem Compile_without_viewer st :
  viewer_node_ st = None ->
  recompile_queued_ st = true \/ compiled_ st = false ->
  Compile st = Undefined.
Proof.
  intros Hv Hcase. unfold Compile. destruct (recompile_queued_ st).
  - unfold Compile_copy. cbn. rewrite Decompile_viewer_node, Hv. reflexivity.
  - destruct Hcase as [Hcase|Hc]; [discriminate|]. rewrite Hc.
    unfold Compile_copy. rewrite Hv. reflexivity.
Qed.

Lemma SetViewerNode_decompiles st old node :
  compiled_ st = true -> viewer_node_ st = Some old ->
  compiled_ (SetViewerNode node st) = false /\
  source_node_list_ (SetViewerNode node st) = [] /\
  copied_viewer_node_ (SetViewerNode node st) = None /\
  viewer_node_ (SetViewerNode node st) = node.
Proof.
  intros Hc Hv. unfold SetViewerNode. rewrite Hv. unfold DisconnectViewer.
  unfold Decompile. rewrite Hc. cbn.
  destruct node as [v|]; cbn; [|repeat split].
  unfold ConnectViewer. destruct (video_params v) as [[w h] tb]. unfold SetParameters.
  cbn.
  match goal with
  | |- context [RegenerateCacheID ?s] =>
      destruct (RegenerateCacheID_changes s) as [id Hid]; rewrite Hid
  end.
  cbn. repeat split.
Qed.

(** X7.  [SetViewerNode] on a compiled backend discards the snapshot, so
    that the next [Compile] copies the new viewer and its dependencies and
    nothing of the old graph. *)
Theorem SetViewerNode_recompiles st old v ok st' :
  compiled_ st = true -> viewer_node_ st = Some old ->
  Compile (SetViewerNode (Some v) st) = Ok (ok, st') ->
  source_node_list_ st' = v :: GetDependencies v /\ compiled_ st' = ok.
Proof.
  intros Hc Hv H.
  destruct (SetViewerNode_decompiles st old (Some v) Hc Hv) as [Hc1 [Hs1 [_ Hv1]]].
  apply Compile_copies_sources in H; [|right; exact Hc1].
  destruct H as [v' [Hv' [Hsrc [_ Hok]]]].
  rewrite Hv1 in Hv'. injection Hv' as <-.
  rewrite Hc1, Hs1 in Hsrc. exact (conj Hsrc Hok).
Qed.

(** X8.  After [SetViewerNode] on a compiled backend every lookup returns
    null, whatever the frame cache and the disk hold, until the graph is
    compiled again: [viewer_node()] is the copied viewer, which
    [Decompile] has reset. *)
Theorem SetViewerNode_lookup_unavailable (disk : Disk) time st old node :
  compiled_ st = true -> viewer_node_ st = Some old ->
  fst (GetCachedFrame disk time (SetViewerNode node st)) = None.
Proof.
  intros Hc Hv.
  destruct (SetViewerNode_decompiles st old node Hc Hv) as [_ [_ [Hcv _]]].
  unfold GetCachedFrame, viewer_node. cbn. rewrite Hcv. reflexivity.
Qed.

(** X9.  [UpdateNodeInputs] reads the copied graph out of range exactly
    when an update is queued and the copied graph is shorter than the
    source list.  When it returns, no update is queued any more, the copied
    graph has the length it had, its nodes beyond the source list are
    untouched, and a second call changes nothing. *)
Theorem UpdateNodeInputs_refresh st :
  (UpdateNodeInputs st = Undefined <->
   value_update_queued_ st = true /\
   (List.length (copied_graph_ st) < List.length (source_node_list_ st))%nat) /\
  (forall st', UpdateNodeInputs st = Ok st' ->
     value_update_queued_ st' = false /\
     List.length (copied_graph_ st') = List.length (copied_graph_ st) /\
     skipn (List.length (source_node_list_ st)) (copied_graph_ st')
       = skipn (List.length (source_node_list_ st)) (copied_graph_ st) /\
     UpdateNodeInputs st' = Ok st').
Proof.
  unfold UpdateNodeInputs at 1 2. destruct (value_update_queued_ st) eqn:Hq.
  - pose proof (refresh_nodes_undefined (value_update_range_ st) (source_node_list_ st)
                  (copied_graph_ st)) as Hu.
    destruct (refresh_nodes _ _ _) as [nodes| |] eqn:E; cbn [bind].
    + split.
      * split; [intros H; discriminate H|]. intros [_ H]. apply Hu in H. discriminate H.
      * intros st' H. injection H as <-. cbn.
        destruct (refresh_nodes_ok _ _ _ _ E) as [Hl Hs]. repeat split; assumption.
    + split; [|intros st' H; discriminate H].
      split; [|reflexivity]. intros _. split; [reflexivity|]. apply Hu. reflexivity.
    + split.
      * split; [intros H; discriminate H|]. intros [_ H]. apply Hu in H. discriminate H.
      * intros st' H. discriminate H.
  - split.
    + split; [intros H; discriminate H|]. intros [H _]. discriminate H.
    + intros st' H. injection H as <-. unfold UpdateNodeInputs. rewrite Hq.
      repeat split; assumption.
Qed.

End Snapshot.

(** ** The queue: the insertion scan and the enumeration *)

(** The scan keeps every entry in its place. *)
Lemma queue_scan_inserts_once last diff r queue :
  (queue_scan last diff r queue = queue /\ In r (points queue)) \/
  exists front back,
    queue = front ++ back /\
    queue_scan last diff r queue = front ++ mkTimeRange r r :: back.
Proof.
  induction queue as [|e rest IH]; cbn.
  - right. exists [], []. split; reflexivity.
  - destruct (ltb diff _).
    + right. exists [], (e :: rest). split; reflexivity.
    + destruct (eqb (range_in e) r) eqn:E.
      * apply rational_eqb_spec in E. left. auto.
      * destruct IH as [[Hsame Hin]|[front [back [Hq Hscan]]]].
        -- left. rewrite Hsame. auto.
        -- right. exists (e :: front), back. rewrite Hscan, Hq. split; reflexivity.
Qed.

(** X10.  One pass of the loop body either leaves the queue as it is, and
    then the point was queued already, or puts the point at one position
    of the queue: no entry is removed or moved. *)
Theorem enqueue_point_inserts_once last r queue :
  (enqueue_point last r queue = queue /\ In r (points queue)) \/
  exists front back,
    queue = front ++ back /\
    enqueue_point last r queue = front ++ mkTimeRange r r :: back.
Proof. apply queue_scan_inserts_once. Qed.

(** X11.  The distance computed for a new point is the weighted distance
    of the spec: never negative, zero exactly at the playhead, and five
    times the gap for a point behind it. *)
Theorem new_point_diff_weighted last r :
  new_point_diff last r = weighted_distance last r /\
  (0 <= new_point_diff last r)%Qc /\
  (new_point_diff last r = 0%Qc <-> r = last).
Proof.
  assert (Heq : new_point_diff last r = weighted_distance last r).
  { unfold new_point_diff, weighted_distance, qAbs.
    destruct (ltb (r - last)%Qc 0%Qc) eqn:Hneg.
    - apply rational_ltb_spec in Hneg.
      assert (Hlt : ltb r last = true) by (apply rational_ltb_spec; push_this; nra).
      rewrite Hlt.
      destruct (leb 0%Qc (r - last)%Qc) eqn:Hpos.
      + apply rational_leb_spec in Hpos. exfalso. push_this. nra.
      + apply Qc_is_canon. push_this. ring.
    - apply rational_ltb_false in Hneg.
      assert (Hlt : ltb r last = false) by (apply rational_ltb_false; push_this; nra).
      rewrite Hlt. reflexivity. }
  split; [exact Heq|]. rewrite Heq. unfold weighted_distance.
  destruct (ltb r last) eqn:Hlt.
  - apply rational_ltb_spec in Hlt. split.
    + push_this. change (inject_Z 5) with 5. nra.
    + split.
      * intros H0. apply (f_equal this) in H0.
        assert (H1 : this ((last - r) * of_int 5)%Qc == 0) by (rewrite H0; reflexivity).
        exfalso. push_this. change (inject_Z 5) with 5 in H1. nra.
      * intros ->. exfalso. exact (Qlt_irrefl _ Hlt).
  - apply rational_ltb_false in Hlt. split.
    + push_this. nra.
    + split.
      * intros H0. apply (f_equal this) in H0.
        assert (H1 : this (r - last)%Qc == 0) by (rewrite H0; reflexivity).
        apply Qc_is_canon. push_this. nra.
      * intros ->. apply Qc_is_canon. push_this. ring.
Qed.

(** Ahead of the playhead the scan is an insertion into a list sorted by
    time, with the equal entry skipped. *)
Lemma queue_scan_In last diff r queue x :
  In x (queue_scan last diff r queue) -> x = mkTimeRange r r \/ In x queue.
Proof.
  induction queue as [|e rest IH]; cbn.
  - intros [<-|[]]. auto.
  - destruct (ltb diff _); cbn.
    + intros [<-|[<-|H]]; auto.
    + destruct (eqb (range_in e) r); cbn.
      * intros [<-|H]; auto.
      * intros [<-|H]; [auto|]. apply IH in H. destruct H; auto.
Qed.

Lemma enqueue_point_ahead_sorted last r queue :
  (last <= r)%Qc ->
  StronglySorted earlier queue ->
  StronglySorted earlier (enqueue_point last r queue).
Proof.
  intros Hahead. unfold enqueue_point.
  assert (Hdiff : new_point_diff last r = (r - last)%Qc).
  { unfold new_point_diff.
    assert (E : ltb (r - last)%Qc 0%Qc = false) by (apply rational_ltb_false; push_this; nra).
    rewrite E. reflexivity. }
  rewrite Hdiff.
  induction 1 as [|e rest Hrest IH He]; cbn.
  - repeat constructor.
  - destruct (ltb (r - last)%Qc (range_in e - last)%Qc) eqn:Hlt.
    + apply rational_ltb_spec in Hlt.
      assert (Hre : (r < range_in e)%Qc) by (push_this; nra).
      constructor; [constructor; assumption|].
      constructor; [exact Hre|].
      eapply Forall_impl; [|exact He]. unfold earlier. cbn. intros x Hx.
      eapply Qclt_trans; eassumption.
    + apply rational_ltb_false in Hlt.
      destruct (eqb (range_in e) r) eqn:Heq.
      * constructor; assumption.
      * apply rational_eqb_false in Heq.
        assert (Her : (range_in e < r)%Qc).
        { assert (Hle : (range_in e <= r)%Qc) by (push_this; nra).
          destruct (Qcle_lt_or_eq _ _ Hle); [assumption|contradiction]. }
        constructor; [exact IH|].
        apply Forall_forall. intros x Hx. apply queue_scan_In in Hx.
        destruct Hx as [->|Hx]; [exact Her|].
        rewrite Forall_forall in He. apply He. exact Hx.
Qed.

Lemma invalidate_loop_ahead_sorted tb end_ last :
  (0 < tb)%Qc ->
  forall fuel r queue queue',
    (last <= r)%Qc ->
    StronglySorted earlier queue ->
    invalidate_loop fuel tb end_ last r queue = Some queue' ->
    StronglySorted earlier queue'.
Proof.
  intros Htb. induction fuel as [|fuel IH]; intros r queue queue' Hahead Hsorted; cbn.
  - destruct (leb r end_); [discriminate|]. intros H. injection H as <-. exact Hsorted.
  - destruct (leb r end_).
    + apply IH.
      * push_this. nra.
      * apply enqueue_point_ahead_sorted; assumption.
    + intros H. injection H as <-. exact Hsorted.
Qed.

Lemma earlier_sorted_NoDup queue :
  StronglySorted earlier queue -> NoDup (points queue).
Proof.
  induction 1 as [|e rest Hrest IH He]; cbn; constructor; [|exact IH].
  intros Hin. apply in_map_iff in Hin. destruct Hin as [x [Hx Hin]].
  rewrite Forall_forall in He. specialize (He x Hin). unfold earlier in He.
  rewrite Hx in He. exact (Qlt_irrefl _ He).
Qed.

(** Whatever the fuel, a finished loop has added grid points up to the end
    of the range only. *)
Lemma invalidate_loop_sound tb end_ last :
  forall fuel r queue queue',
    invalidate_loop fuel tb end_ last r queue = Some queue' ->
    forall t, In t (points queue') ->
      In t (points queue) \/ exists k, t = grid_point r tb k /\ (t <= end_)%Qc.
Proof.
  induction fuel as [|fuel IH]; intros r queue queue'; cbn.
  - destruct (leb r end_); [discriminate|]. intros H. injection H as <-. auto.
  - destruct (leb r end_) eqn:E.
    + intros Hrun t Hin. apply rational_leb_spec in E.
      destruct (IH _ _ _ Hrun t Hin) as [H|[k [-> Hk]]].
      * apply enqueue_point_points in H. destruct H as [->|H]; [|auto].
        right. exists 0%nat. rewrite grid_point_0. auto.
      * right. exists (S k). rewrite grid_point_S. auto.
    + intros H. injection H as <-. auto.
Qed.

(** ** Invalidation, dispatch and lookup *)

Section Scheduling.
Context {G : NodeGraph} {P : Platform} {Derived : Type} {Sub : Subclass Derived}.
Implicit Types st : State Derived.

(** X12.  When the playhead is not beyond the start of the loop, the
    enumeration keeps a queue that is in ascending order of time in
    ascending order of time, and hence free of duplicates. *)
Theorem enqueue_range_ahead_of_playhead fuel start_range end_range st queue :
  (0 < time_base (params_ st))%Qc ->
  (last_time_requested_ st
     <= true_start_range (time_base (params_ st)) (qMax (of_int 0) start_range))%Qc ->
  StronglySorted earlier (cache_queue_ st) ->
  enqueue_range fuel start_range end_range st = Some queue ->
  StronglySorted earlier queue /\ NoDup (points queue).
Proof.
  intros Htb Hahead Hsorted Hrun. unfold enqueue_range in Hrun.
  destruct (start_range_fits _ _); [|discriminate].
  assert (H : StronglySorted earlier queue).
  { eapply invalidate_loop_ahead_sorted; eassumption. }
  split; [exact H|apply earlier_sorted_NoDup; exact H].
Qed.

(** X13.  Without a viewer the sequence length is 0, and the enumeration
    adds at most the point 0 s to the queue, whatever the rounding of the
    doubles as long as it keeps the sign. *)
Theorem enqueue_range_without_viewer fuel start_range end_range st queue :
  sign_preserving_doubles -> (0 < time_base (params_ st))%Qc ->
  viewer_node_ st = None ->
  enqueue_range fuel start_range end_range st = Some queue ->
  forall t, In t (points queue) -> In t (points (cache_queue_ st)) \/ t = of_int 0.
Proof.
  intros Hsign Htb Hv Hrun t Hin. unfold enqueue_range in Hrun.
  destruct (start_range_fits _ _); [|discriminate].
  destruct (invalidate_loop_sound _ _ _ _ _ _ _ Hrun t Hin) as [H|[k [Ht Hk]]]; [auto|].
  right. apply Qcle_antisym.
  - eapply Qcle_trans; [exact Hk|]. unfold SequenceLength. rewrite Hv. apply qMin_le_l.
  - rewrite Ht. eapply Qcle_trans; [|apply grid_point_ge; exact Htb].
    apply true_start_range_nonneg; [exact Hsign|exact Htb|apply qMax_zero_nonneg].
Qed.

(** X14.  A range that ends before 0 s leaves the queue as it is, with
    any fuel: the loop starts at a time that is not negative (the rounding
    of the doubles keeps the sign, the floor fits an [int]), so its body
    never runs. *)
Theorem enqueue_range_before_zero fuel start_range end_range st :
  sign_preserving_doubles -> (0 < time_base (params_ st))%Qc ->
  start_range_fits (time_base (params_ st)) (qMax (of_int 0) start_range) = true ->
  (end_range < 0)%Qc ->
  enqueue_range fuel start_range end_range st = Some (cache_queue_ st).
Proof.
  intros Hsign Htb Hfits He. unfold enqueue_range. rewrite Hfits.
  assert (E : leb (true_start_range (time_base (params_ st)) (qMax (of_int 0) start_range))
                (qMin (SequenceLength st) end_range) = false).
  { apply rational_leb_false. eapply Qcle_lt_trans; [apply qMin_le_r|].
    eapply Qclt_le_trans; [exact He|].
    apply true_start_range_nonneg; [exact Hsign|exact Htb|apply qMax_zero_nonneg]. }
  destruct fuel; cbn; rewrite E; reflexivity.
Qed.

(** X15.  Whatever the rounding of the doubles, as long as it keeps the
    sign, every time the enumeration adds to the queue is a multiple of the
    time base that is not negative, not beyond the end of the sequence and
    not beyond the end of the range. *)
Theorem enqueue_range_within_sequence fuel start_range end_range st queue :
  sign_preserving_doubles -> (0 < time_base (params_ st))%Qc ->
  enqueue_range fuel start_range end_range st = Some queue ->
  forall t, In t (points queue) ->
    In t (points (cache_queue_ st)) \/
    (aligned (time_base (params_ st)) t /\ (0 <= t)%Qc /\
     (t <= SequenceLength st)%Qc /\ (t <= end_range)%Qc).
Proof.
  intros Hsign Htb Hrun t Hin. unfold enqueue_range in Hrun.
  destruct (start_range_fits _ _); [|discriminate].
  destruct (invalidate_loop_sound _ _ _ _ _ _ _ Hrun t Hin) as [H|Hgrid]; [auto|].
  right.
  apply (grid_from_aligned _ _ t _ Htb (true_start_range_aligned _ _)) in Hgrid.
  destruct Hgrid as [Ha [Hlo Hhi]]. split; [exact Ha|]. split; [|split].
  - eapply Qcle_trans; [|exact Hlo].
    apply true_start_range_nonneg; [exact Hsign|exact Htb|apply qMax_zero_nonneg].
  - eapply Qcle_trans; [exact Hhi|apply qMin_le_l].
  - eapply Qcle_trans; [exact Hhi|apply qMin_le_r].
Qed.

(** X16.  A [CacheNext] that returns has either left the queue as it was
    or removed exactly its head, the latter only with a viewer attached and
    no dispatch in flight; it never adds or reorders entries. *)
Theorem CacheNext_pops_at_most_head st st' :
  CacheNext st = Ok st' ->
  cache_queue_ st' = cache_queue_ st \/
  (exists head, cache_queue_ st = head :: cache_queue_ st' /\
                caching_ st = false /\ viewer_node_ st <> None).
Proof. apply CacheNext_queue_step. Qed.

(** X17.  With valid parameters, the queue after [InvalidateCache] is the
    queue of the enumeration, or that queue without its head when the call
    has dispatched. *)
Theorem InvalidateCache_queue fuel start_range end_range st st' :
  is_valid (params_ st) = true ->
  InvalidateCache fuel start_range end_range st = Ok st' ->
  exists queue,
    enqueue_range fuel start_range end_range st = Some queue /\
    (cache_queue_ st' = queue \/ exists head, queue = head :: cache_queue_ st').
Proof.
  intros Hvalid. unfold InvalidateCache. rewrite Hvalid. cbn [negb].
  destruct (start_range_fits _ _); cbn [negb]; [|discriminate].
  destruct (enqueue_range fuel start_range end_range st) as [queue|]; [|discriminate].
  intros H. apply CacheNext_queue_step in H. cbn in H.
  exists queue. split; [reflexivity|].
  destruct H as [H|[head [H _]]]; [left; exact H|right; exists head; exact H].
Qed.

(** X18.  While a dispatch is in flight on a started backend,
    [InvalidateCache] only queues: the queue is the one of the enumeration,
    no worker gets a call, the copied graph is not refreshed, and the
    queued value update is the range of this call, replacing an earlier
    one. *)
Theorem InvalidateCache_in_flight fuel start_range end_range st queue :
  is_valid (params_ st) = true ->
  started_ st = true -> caching_ st = true ->
  enqueue_range fuel start_range end_range st = Some queue ->
  exists st',
    InvalidateCache fuel start_range end_range st = Ok st' /\
    cache_queue_ st' = queue /\
    value_update_queued_ st' = true /\
    value_update_range_ st' = mkTimeRange start_range end_range /\
    processors_ st' = processors_ st /\ copied_graph_ st' = copied_graph_ st /\
    caching_ st' = true.
Proof.
  intros Hvalid Hs Hc Hrun. unfold InvalidateCache. rewrite Hvalid, Hrun. cbn [negb].
  assert (Hfits : start_range_fits (time_base (params_ st)) (qMax (of_int 0) start_range)
                  = true).
  { unfold enqueue_range in Hrun. destruct (start_range_fits _ _); [reflexivity|discriminate]. }
  rewrite Hfits. cbn [negb].
  unfold CacheNext, Init. cbn. rewrite Hs. cbn. rewrite Hc.
  eexists. split.
  - destruct queue; [reflexivity|]. rewrite orb_true_r. reflexivity.
  - repeat split. exact Hc.
Qed.

(** The sibling request goes to the first idle worker. *)
Lemma hand_to_sibling_first_idle dep ws :
  hand_to_sibling dep ws =
    match first_idle ws with
    | Some i => give i (RenderAsSibling dep) ws
    | None => ws
    end.
Proof.
  induction ws as [|w rest IH]; [reflexivity|]. cbn.
  destruct (IsAvailable w); [reflexivity|]. rewrite IH.
  destruct (first_idle rest); reflexivity.
Qed.

Lemma give_received i c ws :
  (i < List.length ws)%nat ->
  List.length (calls_received (give i c ws)) = S (List.length (calls_received ws)).
Proof.
  revert i. induction ws as [|w rest IH]; intros i Hi; [cbn in Hi; lia|].
  unfold calls_received in *. destruct i as [|i]; cbn.
  - rewrite !length_app. cbn. lia.
  - rewrite !length_app. rewrite IH by (cbn in Hi; lia). lia.
Qed.

Lemma first_idle_bound ws i :
  first_idle ws = Some i ->
  (i < List.length ws)%nat /\ exists w, nth_error ws i = Some w /\ IsAvailable w = true.
Proof.
  revert i. induction ws as [|w rest IH]; intros i; cbn; [discriminate|].
  destruct (IsAvailable w) eqn:E.
  - intros H. injection H as <-. split; [lia|]. exists w. auto.
  - destruct (first_idle rest) as [j|]; cbn; [|discriminate].
    intros H. injection H as <-. destruct (IH j eq_refl) as [Hj Hw]. split; [lia|exact Hw].
Qed.

(** X19.  [ThreadRequestedSibling] gives the request to the first idle
    worker, as one more queued call, and does nothing when no worker is
    idle: unlike [GenerateData] it has no worker of last resort. *)
Theorem ThreadRequestedSibling_first_idle dep st :
  match first_idle (processors_ st) with
  | Some i =>
      processors_ (ThreadRequestedSibling dep st)
        = give i (RenderAsSibling dep) (processors_ st) /\
      List.length (calls_received (processors_ (ThreadRequestedSibling dep st)))
        = S (List.length (calls_received (processors_ st)))
  | None => processors_ (ThreadRequestedSibling dep st) = processors_ st
  end.
Proof.
  unfold ThreadRequestedSibling. cbn. rewrite hand_to_sibling_first_idle.
  destruct (first_idle (processors_ st)) as [i|] eqn:E; [|reflexivity].
  split; [reflexivity|]. apply give_received. apply (first_idle_bound _ _ E).
Qed.

(** X20.  A lookup that returns null has changed the last requested time
    and nothing else. *)
Theorem GetCachedFrame_miss (disk : Disk) time st :
  fst (GetCachedFrame disk time st) = None ->
  snd (GetCachedFrame disk time st) = set_last_time_requested_ time st.
Proof.
  unfold GetCachedFrame, viewer_node, cache_id. cbn.
  destruct (copied_viewer_node_ st); [|reflexivity].
  destruct (isEmpty (cache_id_ st)); [reflexivity|].
  destruct (is_valid (params_ st)); [|reflexivity]. cbn.
  destruct (isEmpty (TimeToHash time (frame_cache_ st))); [reflexivity|]. cbn.
  destruct (QFileInfo_exists disk _); [|reflexivity].
  destruct (ImageInput_open disk _); [|reflexivity].
  destruct (read_image _ _ _). cbn. discriminate.
Qed.

(** X21.  After [SetCacheName] the cache ID is the hash over the current
    parameters, the new name and the time of the call, or empty when the
    parameters are not valid, the name is empty or the clock reads 0; the
    frame cache is bound to that ID and keeps its table. *)
Theorem SetCacheName_cache_id now name st :
  cache_id (SetCacheName now name st) =
    (if is_valid (params_ st) && negb (isEmpty name) && negb (Z.eqb now 0)
     then cache_id_of (width (params_ st)) (height (params_ st)) (format (params_ st))
            (divider (params_ st)) name now
     else EmptyString) /\
  frame_cache_id (frame_cache_ (SetCacheName now name st)) = cache_id (SetCacheName now name st) /\
  time_hash_map (frame_cache_ (SetCacheName now name st)) = time_hash_map (frame_cache_ st).
Proof.
  unfold SetCacheName, RegenerateCacheID, GenerateCacheIDInternal, cache_id, cache_id_of.
  cbn.
  destruct (isEmpty name); cbn; [rewrite andb_false_r; repeat split|].
  destruct (Z.eqb now 0); cbn; [rewrite andb_false_r; repeat split|].
  destruct (is_valid (params_ st)); cbn; [|repeat split].
  rewrite !string_append_assoc. repeat split.
Qed.

End Scheduling.

(** ** The further properties at work *)


(** The doubles of the example platform keep the sign. *)
Lemma example_sign_preserving : sign_preserving_doubles (P:=example_platform).
Proof. split; [intros r Hr; exact Hr|intros q Hq; exact Hq]. Qed.

(** Closing the started backend of the session. *)
Lemma Close_tears_down_witness :
  threads_ (Close (Sub:=Session.subclass) Session.started) = [].
Proof.
  exact (proj1 (proj2 (Close_tears_down (Sub:=Session.subclass)
                         Session.started eq_refl))).
Defined.

(** The first [Init] of the session. *)
Lemma Init_success_pool_witness :
  started_ Session.started = true.
Proof.
  assert (H : Init (P:=example_platform) (Sub:=Session.subclass) Session.opened
              = Ok (true, Session.started)) by (vm_compute; reflexivity).
  exact (proj1 (Init_success_pool Session.opened Session.started eq_refl H)).
Defined.

(** The first [Compile] of the session. *)
Lemma Compile_source_nodes_witness :
  exists v, viewer_node_ Session.opened = Some v /\
    source_node_list_ Session.compiled =
      (if compiled_ Session.opened then [] else source_node_list_ Session.opened)
        ++ v :: GetDependencies v /\
    copied_viewer_node_ Session.compiled = Some 0%nat /\ compiled_ Session.compiled = true.
Proof.
  apply (Compile_source_nodes (Sub:=Session.subclass)).
  - right. reflexivity.
  - vm_compute. reflexivity.
Defined.

(** A [Compile] of the graph that does not compile. *)
Lemma Compile_failure_residue_witness :
  compiled_ FailedCompile.failed = false /\ source_node_list_ FailedCompile.failed <> [] /\
  copied_viewer_node_ FailedCompile.failed = Some 0%nat /\
  Decompile (Sub:=FailedCompile.subclass) FailedCompile.failed
    = FailedCompile.failed.
Proof.
  apply (Compile_failure_residue (Sub:=FailedCompile.subclass)
           FailedCompile.opened).
  vm_compute. reflexivity.
Defined.

(** [Compile] before any viewer is attached. *)
Lemma Compile_without_viewer_witness :
  Compile (Sub:=Session.subclass) Session.fresh = Undefined.
Proof.
  apply Compile_without_viewer; [reflexivity|right; reflexivity].
Defined.

(** Node 1 becomes the viewer of the compiled backend. *)
Lemma SetViewerNode_recompiles_witness :
  source_node_list_ Session.recompiled
    = 1%nat :: @GetDependencies Session.graph 1%nat /\
  compiled_ Session.recompiled = true.
Proof.
  apply (SetViewerNode_recompiles (P:=example_platform) (Sub:=Session.subclass)
           Session.compiled 0%nat 1%nat).
  - reflexivity.
  - reflexivity.
  - vm_compute. reflexivity.
Defined.

(** A lookup right after the viewer has changed. *)
Lemma SetViewerNode_lookup_unavailable_witness :
  fst (GetCachedFrame (P:=example_platform) no_files (of_int 0) Session.switched) = None.
Proof.
  apply (SetViewerNode_lookup_unavailable (P:=example_platform) (Sub:=Session.subclass)
           no_files (of_int 0) Session.compiled 0%nat (Some 1%nat)); reflexivity.
Defined.

(** [Invalidate(2, 4)] with the playhead at 0 s. *)
Lemma enqueue_range_ahead_of_playhead_witness :
  StronglySorted earlier Session.queue_2_4 /\ NoDup (points Session.queue_2_4).
Proof.
  apply (enqueue_range_ahead_of_playhead (P:=example_platform) 10 (of_int 2) (of_int 4)
           Session.opened).
  - reflexivity.
  - vm_compute. discriminate.
  - constructor.
  - vm_compute. reflexivity.
Defined.

(** [Invalidate(-1, 4)] after the viewer was taken away. *)
Lemma enqueue_range_without_viewer_witness :
  In (of_int 0) (points (cache_queue_ Session.detached)) \/ of_int 0 = of_int 0.
Proof.
  apply (enqueue_range_without_viewer (P:=example_platform) 10 (of_int (-1)) (of_int 4)
           Session.detached Session.queue_detached).
  - exact example_sign_preserving.
  - reflexivity.
  - reflexivity.
  - vm_compute. reflexivity.
  - left. apply Qc_is_canon. reflexivity.
Defined.

(** [Invalidate(-3, -1)], with no fuel at all. *)
Lemma enqueue_range_before_zero_witness :
  enqueue_range (P:=example_platform) 0 (of_int (-3)) (of_int (-1)) Session.opened
  = Some (cache_queue_ Session.opened).
Proof.
  apply enqueue_range_before_zero;
    [exact example_sign_preserving|reflexivity|reflexivity|reflexivity].
Defined.

(** [Invalidate(2, 4)] on the opened backend: 3 s is one of the times
    queued. *)
Lemma enqueue_range_within_sequence_witness :
  In (of_int 3) (points (cache_queue_ Session.opened)) \/
  (aligned (time_base (params_ Session.opened)) (of_int 3) /\ (0 <= of_int 3)%Qc /\
   (of_int 3 <= SequenceLength Session.opened)%Qc /\ (of_int 3 <= of_int 4)%Qc).
Proof.
  apply (enqueue_range_within_sequence (P:=example_platform) 10 (of_int 2) (of_int 4)
           Session.opened Session.queue_2_4).
  - exact example_sign_preserving.
  - reflexivity.
  - vm_compute. reflexivity.
  - right. left. apply Qc_is_canon. reflexivity.
Defined.

(** The dispatch of 1 s after 0 s has completed. *)
Lemma CacheNext_pops_at_most_head_witness :
  cache_queue_ Session.dispatched = cache_queue_ Session.idle_again \/
  (exists head, cache_queue_ Session.idle_again = head :: cache_queue_ Session.dispatched /\
                caching_ Session.idle_again = false /\ viewer_node_ Session.idle_again <> None).
Proof.
  apply (CacheNext_pops_at_most_head (P:=example_platform) (Sub:=Session.subclass)).
  vm_compute. reflexivity.
Defined.

(** [Invalidate(0, 1)] on the opened backend. *)
Lemma InvalidateCache_queue_witness :
  exists queue,
    enqueue_range (P:=example_platform) 10 (of_int 0) (of_int 1) Session.opened = Some queue /\
    (cache_queue_ Session.in_flight = queue \/
     exists head, queue = head :: cache_queue_ Session.in_flight).
Proof.
  apply (InvalidateCache_queue (P:=example_platform) (Sub:=Session.subclass)).
  - reflexivity.
  - vm_compute. reflexivity.
Defined.

(** [Invalidate(3, 4)] while 0 s is in flight. *)
Lemma InvalidateCache_in_flight_witness :
  exists st',
    InvalidateCache (P:=example_platform) (Sub:=Session.subclass) 10 (of_int 3) (of_int 4)
      Session.in_flight = Ok st' /\
    cache_queue_ st' = Session.queue_in_flight /\
    value_update_queued_ st' = true /\
    value_update_range_ st' = mkTimeRange (of_int 3) (of_int 4) /\
    processors_ st' = processors_ Session.in_flight /\
    copied_graph_ st' = copied_graph_ Session.in_flight /\
    caching_ st' = true.
Proof.
  apply InvalidateCache_in_flight.
  - reflexivity.
  - reflexivity.
  - reflexivity.
  - vm_compute. reflexivity.
Defined.

(** A lookup with an empty frame cache. *)
Lemma GetCachedFrame_miss_witness :
  snd (GetCachedFrame (P:=example_platform) no_files (of_int 2) Session.compiled)
  = set_last_time_requested_ (of_int 2) Session.compiled.
Proof.
  apply GetCachedFrame_miss. reflexivity.
Defined.
